(** * Baseline CI Guard: catalog resolution, detection and policy

    A shallow embedding of the scanner's [run] pipeline (index.js):
    [normalizeFeatures], [loadBaselineJson], [loadBaselineIgnore], the merge
    loop, [detectFeaturesInJS], [detectFeaturesInCSS], the per-file loop that
    fills the report, and the policy decision.

    Conventions.
    - A JS string is a [string]; its characters stand for code units below 256.
    - A JS [Map] or [Set] is a list in insertion order ([JSMap], [JSSet]).
    - A JS exception is the [Throw] branch of [result]; [try]/[catch] is
      [try_catch]; an [await]ed promise is the [result] of the call.
    - The libraries the scanner calls (the string case mapping, the script
      parser, the stylesheet parser, the selector parser, the file system) are
      the fields of the class [Host]. *)

From Stdlib Require Import ZArith Ascii String.
From stdpp Require Import base decidable option list strings.

Open Scope string_scope.
Open Scope list_scope.

(** ** JavaScript values *)

(** The values a loosely typed catalog field can hold.  An object is only
    ever passed along by the scanner, so it is kept as an opaque reference. *)
Inductive value : Type :=
| VUndefined
| VNull
| VBool (b : bool)
| VNumber (n : Z)
| VString (s : string)
| VObject (ref : positive).

Global Instance value_eq_dec : EqDecision value.
Proof. solve_decision. Defined.

(** [a ?? b] *)
Definition nullish (v : value) : bool :=
  match v with
  | VUndefined | VNull => true
  | _ => false
  end.

Definition coalesce (a b : value) : value :=
  if nullish a then b else a.

Infix "??" := coalesce (at level 45, left associativity).

(** [v === false] *)
Definition strict_false (v : value) : bool :=
  match v with
  | VBool false => true
  | _ => false
  end.

(** ** Exceptions *)

Definition exn : Type := string.

Inductive result (A : Type) : Type :=
| Ok (a : A)
| Throw (e : exn).
Global Arguments Ok {A} a.
Global Arguments Throw {A} e.

Global Instance result_ret : MRet result := fun _ a => Ok a.

Global Instance result_bind : MBind result := fun _ _ k m =>
  match m with
  | Ok a => k a
  | Throw e => Throw e
  end.

(** [try { m } catch { h }] *)
Definition try_catch {A} (m : result A) (h : exn → result A) : result A :=
  match m with
  | Ok a => Ok a
  | Throw e => h e
  end.

(** A [for ... of] loop whose body may throw: the first exception ends it. *)
Fixpoint for_of {S X} (body : S → X → result S) (xs : list X) (s : S) : result S :=
  match xs with
  | [] => Ok s
  | x :: xs' => s' ← body s x; for_of body xs' s'
  end.

(** [xs.map(f)] with a callback that may throw: the elements are taken in
    order and the first exception ends it. *)
Fixpoint map_result {A B} (f : A → result B) (xs : list A) : result (list B) :=
  match xs with
  | [] => Ok []
  | x :: xs' => y ← f x; ys ← map_result f xs'; Ok (y :: ys)
  end.

(** ** [Map] and [Set]: insertion ordered *)

Module JSMap.
Section defs.
Context {K V : Type} `{EqDecision K}.

Definition t : Type := list (K * V).

Definition empty : t := [].

Fixpoint get (m : t) (k : K) : option V :=
  match m with
  | [] => None
  | (k', v) :: m' => if decide (k = k') then Some v else get m' k
  end.

Definition has (m : t) (k : K) : bool :=
  match get m k with
  | Some _ => true
  | None => false
  end.

(** An existing key keeps its place and takes the new value; a new key goes
    to the end. *)
Fixpoint set (m : t) (k : K) (v : V) : t :=
  match m with
  | [] => [(k, v)]
  | (k', v') :: m' =>
      if decide (k = k') then (k, v) :: m' else (k', v') :: set m' k v
  end.

Definition keys (m : t) : list K := m.*1.
Definition values (m : t) : list V := m.*2.
Definition entries (m : t) : list (K * V) := m.

(** [new Map(pairs)] *)
Definition of_entries (pairs : list (K * V)) : t :=
  fold_left (fun m p => set m p.1 p.2) pairs empty.
End defs.
Global Arguments t : clear implicits.
End JSMap.

Module JSSet.
Section defs.
Context {A : Type} `{EqDecision A}.

Definition t : Type := list A.

Definition empty : t := [].

Definition has (s : t) (x : A) : bool := bool_decide (x ∈ s).

Definition add (s : t) (x : A) : t :=
  if has s x then s else s ++ [x].

(** [new Set(xs)] *)
Definition of_list (xs : list A) : t := fold_left add xs empty.

(** [Array.from(s)] *)
Definition to_list (s : t) : list A := s.
End defs.
Global Arguments t : clear implicits.
End JSSet.

(** ** Strings *)

(** The characters [\s] matches (and [trim] removes) among code units below
    256: tab, line feed, vertical tab, form feed, carriage return, space and
    the no-break space. *)
Definition is_space (c : ascii) : bool :=
  let n := nat_of_ascii c in
  ((9 <=? n)%nat && (n <=? 13)%nat) || (n =? 32)%nat || (n =? 160)%nat.

(** [s.replace(/\s+/g, '-')]: every maximal run of white space becomes one
    hyphen.  [in_run] tells that the previous character was white space. *)
Fixpoint replace_spaces_from (in_run : bool) (s : string) : string :=
  match s with
  | EmptyString => EmptyString
  | String c s' =>
      if is_space c
      then (if in_run then replace_spaces_from true s'
            else String "-" (replace_spaces_from true s'))
      else String c (replace_spaces_from false s')
  end.

Definition replace_spaces (s : string) : string := replace_spaces_from false s.

(** [s.replace(/^:+/, '')] *)
Fixpoint strip_colons (s : string) : string :=
  match s with
  | String ":" s' => strip_colons s'
  | _ => s
  end.

Fixpoint trim_start (s : string) : string :=
  match s with
  | String c s' => if is_space c then trim_start s' else s
  | EmptyString => EmptyString
  end.

(** [s.trim()] *)
Definition trim (s : string) : string :=
  String.rev (trim_start (String.rev (trim_start s))).

(** [s.split(/\r?\n/)].  [cur] is the current line, reversed. *)
Fixpoint split_lines_from (cur : string) (s : string) : list string :=
  match s with
  | EmptyString => [String.rev cur]
  | String c s' =>
      if decide (c = "010"%char)
      then String.rev (match cur with
                       | String "013" cur' => cur'
                       | _ => cur
                       end) :: split_lines_from EmptyString s'
      else split_lines_from (String c cur) s'
  end.

Definition split_lines (s : string) : list string :=
  split_lines_from EmptyString s.

(** [s.endsWith(suffix)] *)
Definition endsWith (s suffix : string) : bool :=
  let n := String.length s in
  let m := String.length suffix in
  (m <=? n)%nat && String.eqb (substring (n - m) m s) suffix.

(** A string is truthy when it is not empty. *)
Definition truthy_string (s : string) : bool :=
  negb (String.eqb s "").

(** ** The catalog *)

(** A loosely typed record of the bundled catalog or of baseline.json: a
    missing property reads as [None] or [VUndefined].  [id] and [name] are
    strings when they are there. *)
Record raw_feature : Type := {
  raw_id : option string;
  raw_name : option string;
  raw_baseline : value;
  raw_status : value;
  raw_description : value;
}.

(** The two shapes [normalizeFeatures] accepts, and the falsy input. *)
Inductive raw_catalog : Type :=
| RawMissing
| RawArray (items : list raw_feature)
| RawObject (entries : list (string * raw_feature)).

(** What the scanner can observe of a value held by baseline.json: [null],
    on which reading a property throws, or any other value, by the properties
    it reads of it. *)
Inductive json_data : Type :=
| JNull
| JRecord (r : raw_feature).

(** What [JSON.parse] makes of baseline.json: [null], which has no entries
    to list, or any other value, by its own enumerable entries in the order of
    [Object.entries]. *)
Inductive json_doc : Type :=
| DocNull
| DocEntries (entries : list (string * json_data)).

(** An object all of whose values are records. *)
Definition of_records (entries : list (string * raw_feature)) : json_doc :=
  DocEntries ((fun p => (p.1, JRecord p.2)) <$> entries).

Record Feature : Type := {
  id : option string;
  name : option string;
  baseline : value;
  description : value;
}.

Global Instance Feature_eq_dec : EqDecision Feature.
Proof. solve_decision. Defined.

(** ** Syntax trees *)

(** What [traverse] shows of a script: the node kinds that have a visitor,
    and every other node with its children in traversal order. *)
#[warnings="-register-all"]
Inductive node : Type :=
| Identifier (name : string)
| MemberExpression (object property : node)
| Other (children : list node).

(** [node.object?.name] *)
Definition object_name (n : node) : option string :=
  match n with
  | MemberExpression (Identifier x) _ => Some x
  | _ => None
  end.

(** A style rule as [walkRules] hands it over, and a pseudo node as
    [walkPseudos] does. *)
Record Rule : Type := { selector : string }.
Record Pseudo : Type := { pseudo_value : string }.

(** ** The host *)

Class Host : Type := {
  (** [String.prototype.toLowerCase] *)
  toLowerCase : string → string;
  (** [path.join] *)
  join : string → string → string;
  (** [fs.readFile(path, 'utf8')] *)
  readFile : string → result string;
  (** [JSON.parse] *)
  JSON_parse : string → result json_doc;
  (** [fg(patterns, { cwd, ... })] *)
  fg : list string → string → result (list string);
  (** [parse(content, { sourceType: 'module', plugins: ['typescript', 'jsx'] })] *)
  parse : string → result node;
  (** [postcss.parse(content)], as the rules [walkRules] visits, in order *)
  postcss_parse : string → result (list Rule);
  (** [postcssSelectorParser(...).processSync(selector)], as the pseudo nodes
      [walkPseudos] visits, in order *)
  processSync : string → result (list Pseudo);
  (** [import { features } from 'web-features'] *)
  wfFeatures : raw_catalog;
}.

Section scanner.
Context `{Host}.

(** [f.name?.toLowerCase()] *)
Definition name_key (f : Feature) : option string :=
  toLowerCase <$> name f.

(** *** normalizeFeatures

    The closing [.filter(Boolean)] of the sequence branch keeps every
    element, since each one is an object. *)

Definition normalizeFeatures (raw : raw_catalog) : list Feature :=
  match raw with
  | RawMissing => []
  | RawArray items =>
      (fun f =>
         {| id := match raw_id f with
                  | Some i => Some i
                  | None =>
                      match raw_name f with
                      | Some n =>
                          if truthy_string n
                          then Some (replace_spaces (toLowerCase n))
                          else None
                      | None => None
                      end
                  end;
            name := raw_name f;
            baseline := raw_baseline f ?? raw_status f ?? VBool false;
            description := raw_description f ?? VString "" |}) <$> items
  | RawObject entries =>
      (fun '(i, data) =>
         {| id := Some i;
            name := Some (default i (raw_name data));
            baseline := raw_baseline data ?? VBool false;
            description := raw_description data ?? VString "" |}) <$> entries
  end.

(** *** loadBaselineJson *)

Definition loadBaselineJson (cwd : string) : result json_doc :=
  try_catch
    (raw ← readFile (join cwd "baseline.json");
     JSON_parse raw)
    (fun _ => Ok (DocEntries [])).

(** *** loadBaselineIgnore *)

Definition loadBaselineIgnore (cwd : string) : result (JSSet.t string) :=
  try_catch
    (content ← readFile (join cwd ".baselineignore");
     Ok (JSSet.of_list
           (filter (fun line => truthy_string line = true)
                   ((fun line => toLowerCase (trim line)) <$> split_lines content))))
    (fun _ => Ok JSSet.empty).

(** *** The merge of [run] *)

(** [Object.entries(baselineJson)]: a [TypeError] on [null]. *)
Definition Object_entries (baselineJson : json_doc) : result (list (string * json_data)) :=
  match baselineJson with
  | DocNull => Throw "TypeError"
  | DocEntries entries => Ok entries
  end.

(** The callback of the [map] that builds [localOverrides]: reading
    [data.baseline] is a [TypeError] when [data] is [null]. *)
Definition override (name : string) (data : json_data) : result Feature :=
  match data with
  | JNull => Throw "TypeError"
  | JRecord data =>
      Ok {| id := Some (toLowerCase name);
            name := Some name;
            baseline := raw_baseline data ?? VBool false;
            description := raw_description data ?? VString "" |}
  end.

Definition localOverrides (baselineJson : json_doc) : result (list Feature) :=
  entries ← Object_entries baselineJson;
  map_result (fun '(name, data) => override name data) entries.

(** [!baselineIgnore.has(f.name?.toLowerCase()) && !baselineIgnore.has(f.id)];
    the set holds strings only, so [undefined] is never in it. *)
Definition ignore_has (baselineIgnore : JSSet.t string) (k : option string) : bool :=
  match k with
  | Some s => JSSet.has baselineIgnore s
  | None => false
  end.

Definition kept (baselineIgnore : JSSet.t string) (f : Feature) : bool :=
  negb (ignore_has baselineIgnore (name_key f)) && negb (ignore_has baselineIgnore (id f)).

(** The body of [for (const f of [...defaultFeatures, ...localOverrides])]. *)
Definition merge_step (baselineIgnore : JSSet.t string)
    (merged : JSMap.t (option string) Feature) (f : Feature)
    : JSMap.t (option string) Feature :=
  if kept baselineIgnore f then JSMap.set merged (name_key f) f else merged.

Definition merged (defaultFeatures localOverrides : list Feature)
    (baselineIgnore : JSSet.t string) : JSMap.t (option string) Feature :=
  fold_left (merge_step baselineIgnore) (defaultFeatures ++ localOverrides) JSMap.empty.

(** Every binding of a table is a kept feature under its own key. *)
Definition well_keyed (baselineIgnore : JSSet.t string)
    (m : JSMap.t (option string) Feature) : Prop :=
  Forall (fun p => p.1 = name_key p.2 ∧ kept baselineIgnore p.2 = true) m.
(** *** Detection *)

(** [new Map(features.map((f) => [f.name?.toLowerCase(), f]))] *)
Definition featureMap (features : list Feature) : JSMap.t (option string) Feature :=
  JSMap.of_entries ((fun f => (name_key f, f)) <$> features).

(** [if (featureMap.has(k)) used.add(featureMap.get(k))].  The features of a
    [featureMap] have pairwise different names, so two of them are the same
    object exactly when they are equal. *)
Definition probe (fm : JSMap.t (option string) Feature) (k : option string)
    (used : JSSet.t Feature) : JSSet.t Feature :=
  match JSMap.get fm k with
  | Some f => JSSet.add used f
  | None => used
  end.

(** The [Identifier] visitor. *)
Definition visit_Identifier (fm : JSMap.t (option string) Feature) (x : string)
    (used : JSSet.t Feature) : JSSet.t Feature :=
  probe fm (Some (toLowerCase x)) used.

(** The [MemberExpression] visitor: [obj && featureMap.has(obj)]. *)
Definition visit_MemberExpression (fm : JSMap.t (option string) Feature)
    (n : node) (used : JSSet.t Feature) : JSSet.t Feature :=
  match toLowerCase <$> object_name n with
  | Some obj => if truthy_string obj then probe fm (Some obj) used else used
  | None => used
  end.

(** [traverse(ast, { Identifier, MemberExpression })]: each visitor runs when
    its node is entered, before the children. *)
Fixpoint traverse (fm : JSMap.t (option string) Feature) (n : node)
    (used : JSSet.t Feature) : JSSet.t Feature :=
  match n with
  | Identifier x => visit_Identifier fm x used
  | MemberExpression object property =>
      traverse fm property (traverse fm object (visit_MemberExpression fm n used))
  | Other children => fold_left (fun u c => traverse fm c u) children used
  end.

Definition detectFeaturesInJS (content : string) (features : list Feature)
    : result (list Feature) :=
  match parse content with
  | Throw _ => Ok []
  | Ok ast =>
      let fm := featureMap features in
      Ok (JSSet.to_list (traverse fm ast JSSet.empty))
  end.

(** The callback of [walkPseudos]. *)
Definition visit_Pseudo (fm : JSMap.t (option string) Feature) (used : JSSet.t Feature)
    (pseudo : Pseudo) : JSSet.t Feature :=
  probe fm (Some (toLowerCase (strip_colons (pseudo_value pseudo)))) used.

(** The callback of [walkRules]. *)
Definition visit_Rule (fm : JSMap.t (option string) Feature) (used : JSSet.t Feature)
    (rule : Rule) : result (JSSet.t Feature) :=
  pseudos ← processSync (selector rule);
  Ok (fold_left (visit_Pseudo fm) pseudos used).

Definition detectFeaturesInCSS (content : string) (features : list Feature)
    : result (list Feature) :=
  root ← postcss_parse content;
  let fm := featureMap features in
  used ← for_of (visit_Rule fm) root JSSet.empty;
  Ok (JSSet.to_list used).

(** *** The report *)

Record entry : Type := {
  feature : Feature;
  files : JSSet.t string;
}.

(** [/\.(js|ts|jsx|tsx|html)$/.test(file)] *)
Definition is_script (file : string) : bool :=
  endsWith file ".js" || endsWith file ".ts" || endsWith file ".jsx"
  || endsWith file ".tsx" || endsWith file ".html".

Definition detect (file content : string) (features : list Feature)
    : result (list Feature) :=
  if is_script file then detectFeaturesInJS content features
  else if endsWith file ".css" then detectFeaturesInCSS content features
  else Ok [].

(** The body of [for (const f of detected)]. *)
Definition record (file : string) (report : JSMap.t (option string) entry)
    (f : Feature) : JSMap.t (option string) entry :=
  let e := default {| feature := f; files := JSSet.empty |} (JSMap.get report (id f)) in
  JSMap.set report (id f) {| feature := feature e; files := JSSet.add (files e) file |}.

(** The [try] block of the loop over [files]. *)
Definition scan_file (cwd : string) (features : list Feature)
    (report : JSMap.t (option string) entry) (file : string)
    : result (JSMap.t (option string) entry) :=
  content ← readFile (join cwd file);
  detected ← detect file content features;
  Ok (fold_left (record file) detected report).

(** The body of the loop over [files].  Nothing is written to the report
    before detection has returned, so the handler finds it unchanged. *)
Definition scan_step (cwd : string) (features : list Feature)
    (report : JSMap.t (option string) entry) (file : string)
    : result (JSMap.t (option string) entry) :=
  try_catch (scan_file cwd features report file) (fun _ => Ok report).

Definition scan (cwd : string) (features : list Feature) (files : list string)
    : result (JSMap.t (option string) entry) :=
  for_of (scan_step cwd features) files JSMap.empty.

(** What the [try] block detects in one file, when it does not throw. *)
Definition detected_in (cwd : string) (features : list Feature) (file : string)
    : result (list Feature) :=
  content ← readFile (join cwd file);
  detect file content features.

(** The files whose [try] block ran to its end, each with its detections. *)
Definition stream_of (cwd : string) (features : list Feature) (files : list string)
    : list (string * list Feature) :=
  omap (fun file =>
          match detected_in cwd features file with
          | Ok detected => Some (file, detected)
          | Throw _ => None
          end) files.

(** *** The verdict *)

(** An element of [results]. *)
Record Detail : Type := {
  r_id : option string;
  r_name : option string;
  r_baseline : value;
  r_files : list string;
}.

Definition results (report : JSMap.t (option string) entry) : list Detail :=
  (fun '(i, e) =>
     {| r_id := i;
        r_name := name (feature e);
        r_baseline := baseline (feature e);
        r_files := JSSet.to_list (files e) |}) <$> JSMap.entries report.

Definition unsafe (results : list Detail) : list Detail :=
  filter (fun r => strict_false (r_baseline r) = true) results.

Definition criticalLower (criticalFeatures : list string) : list string :=
  toLowerCase <$> criticalFeatures.

(** [criticalLower.includes(r.id)] *)
Definition includes (xs : list string) (k : option string) : bool :=
  match k with
  | Some s => bool_decide (s ∈ xs)
  | None => false
  end.

Definition criticalDetected (results : list Detail) (criticalFeatures : list string)
    : list Detail :=
  filter (fun r => includes (criticalLower criticalFeatures) (r_id r) = true) results.

Definition ok (failOnLimited : bool) (results : list Detail)
    (criticalFeatures : list string) : bool :=
  negb (failOnLimited
        && ((0 <? length (unsafe results))%nat
            || (0 <? length (criticalDetected results criticalFeatures))%nat)).

Record Verdict : Type := {
  v_ok : bool;
  v_details : list Detail;
  v_criticalDetected : list Detail;
}.

(** *** run

    The console output and the outputs set on the action are left out; the
    value is what [run] returns. *)

Definition run (patternsArr : list string) (cwd : string) (failOnLimited : bool)
    (criticalFeatures : list string) : result Verdict :=
  baselineIgnore ← loadBaselineIgnore cwd;
  let defaultFeatures := normalizeFeatures wfFeatures in
  baselineJson ← loadBaselineJson cwd;
  localOverrides ← localOverrides baselineJson;
  let features :=
    JSMap.values (merged defaultFeatures localOverrides baselineIgnore) in
  files ← fg patternsArr cwd;
  report ← scan cwd features files;
  let results := results report in
  Ok {| v_ok := ok failOnLimited results criticalFeatures;
        v_details := results;
        v_criticalDetected := criticalDetected results criticalFeatures |}.
End scanner.

(** *** The aggregation on its own *)

(** The detections of a run as one sequence of (file, feature) pairs. *)
Definition hits (stream : list (string * list Feature)) : list (string * Feature) :=
  stream ≫= (fun '(file, detected) => (fun f => (file, f)) <$> detected).

(** What the loop over [files] does to the report, given what was detected
    in each file. *)
Definition aggregate (stream : list (string * list Feature))
    : JSMap.t (option string) entry :=
  fold_left (fun report '(file, detected) => fold_left (record file) detected report)
            stream JSMap.empty.

(** The report after a sequence of single detections. *)
Definition report_of (l : list (string * Feature)) : JSMap.t (option string) entry :=
  fold_left (fun report hit => record hit.1 report hit.2) l JSMap.empty.

(** The elements of a sequence in the order of their first occurrence. *)
Fixpoint first_seen {A} `{EqDecision A} (l : list A) : list A :=
  match l with
  | [] => []
  | x :: l' => x :: filter (fun y => y ≠ x) (first_seen l')
  end.

(** The names of the [Identifier] nodes of a tree, in traversal order. *)
Fixpoint identifiers (n : node) : list string :=
  match n with
  | Identifier x => [x]
  | MemberExpression object property => identifiers object ++ identifiers property
  | Other children => flat_map identifiers children
  end.

(** ** The command line block *)

(** [s.split(',')].  [cur] is the current piece, reversed. *)
Fixpoint split_commas_from (cur : string) (s : string) : list string :=
  match s with
  | EmptyString => [String.rev cur]
  | String c s' =>
      if decide (c = ","%char)
      then String.rev cur :: split_commas_from EmptyString s'
      else split_commas_from (String c cur) s'
  end.

Definition split_commas (s : string) : list string :=
  split_commas_from EmptyString s.

(** [core.getInput('fail-on-limited') !== 'false'] *)
Definition cli_failOnLimited (input : string) : bool :=
  negb (String.eqb input "false").

(** [(core.getInput('critical-features') || '').split(',').map(f => f.trim())
    .filter(Boolean)] *)
Definition cli_criticalFeatures (input : string) : list string :=
  let criticalInput := if truthy_string input then input else "" in
  filter (fun f => truthy_string f = true) (trim <$> split_commas criticalInput).

(** The default of [patterns] in [run]. *)
Definition default_patterns : list string := ["**/*.{js,ts,jsx,tsx,css,html}"].

Section cli.
Context `{Host}.

(** The body of the command line block, as the code the process exits with.
    [getInput] is [core.getInput] and [cwd] is [process.cwd()]. *)
Definition cli (getInput : string → string) (cwd : string) : Z :=
  let failOnLimited := cli_failOnLimited (getInput "fail-on-limited") in
  let criticalFeatures := cli_criticalFeatures (getInput "critical-features") in
  match run default_patterns cwd failOnLimited criticalFeatures with
  | Ok res => if v_ok res then 0%Z else 1%Z
  | Throw _ => 2%Z
  end.
End cli.

(** ** A host given by tables

    For evaluation on concrete inputs: every library call is a look-up in a
    table of known inputs, and an input that is not in its table throws; a
    list of patterns that is not in the table of listings matches no file. *)

(** [toLowerCase] on code units below 256: the letters A to Z, and the
    capital letters of the upper half (192 to 222, the multiplication sign 215
    apart), are moved up by 32. *)
Definition lower_ascii (c : ascii) : ascii :=
  let n := nat_of_ascii c in
  if ((65 <=? n)%nat && (n <=? 90)%nat)
     || ((192 <=? n)%nat && (n <=? 222)%nat && negb (n =? 215)%nat)
  then ascii_of_nat (n + 32) else c.

Fixpoint lower (s : string) : string :=
  match s with
  | EmptyString => EmptyString
  | String c s' => String (lower_ascii c) (lower s')
  end.

Fixpoint table_lookup {A} (table : list (string * A)) (e : exn) (k : string) : result A :=
  match table with
  | [] => Throw e
  | (k', a) :: table' => if decide (k = k') then Ok a else table_lookup table' e k
  end.

Record tables : Type := {
  t_catalog : raw_catalog;
  t_disk : list (string * string);
  t_json : list (string * json_doc);
  t_listing : list (list string * list string);
  t_scripts : list (string * node);
  t_sheets : list (string * list Rule);
  t_selectors : list (string * list Pseudo);
}.

Definition table_host (t : tables) : Host := {|
  toLowerCase := lower;
  join := fun dir p => dir +:+ "/" +:+ p;
  readFile := table_lookup (t_disk t) "ENOENT";
  JSON_parse := table_lookup (t_json t) "SyntaxError";
  fg := fun patterns _ => Ok (default [] (JSMap.get (t_listing t) patterns));
  parse := table_lookup (t_scripts t) "SyntaxError";
  postcss_parse := table_lookup (t_sheets t) "CssSyntaxError";
  processSync := table_lookup (t_selectors t) "SelectorSyntaxError";
  wfFeatures := t_catalog t;
|}.

Definition no_tables : tables := {|
  t_catalog := RawMissing;
  t_disk := [];
  t_json := [];
  t_listing := [];
  t_scripts := [];
  t_sheets := [];
  t_selectors := [];
|}.

Definition record_of (n : option string) (b s : value) : raw_feature := {|
  raw_id := None;
  raw_name := n;
  raw_baseline := b;
  raw_status := s;
  raw_description := VUndefined;
|}.

(** A small project: a catalog in the keyed shape, an ignore file, two
    scripts and three style sheets, with what the parsers make of them. *)
Definition demo_catalog : raw_catalog :=
  RawObject
    [("Foo", record_of (Some "fetch") (VBool true) VUndefined);
     ("has", record_of (Some "has") (VBool true) VUndefined);
     ("Dialog", record_of (Some "Dialog element") (VBool false) VUndefined)].

Definition demo_tables : tables := {|
  t_catalog := demo_catalog;
  t_disk :=
    [("/w/.baselineignore", "Dialog");
     ("/w/a.js", "fetch(url)");
     ("/w/bad.js", "let = ;");
     ("/w/b.css", "a:has(b) { color: red }");
     ("/w/c.css", "a:hover { color: red }");
     ("/w/bad.css", "a { color: red")];
  t_json := [];
  t_listing := [(default_patterns, ["a.js"; "bad.js"; "b.css"; "c.css"; "bad.css"])];
  t_scripts :=
    [("fetch(url)", Other [Other [Other [Other [Identifier "fetch"; Identifier "url"]]]])];
  t_sheets :=
    [("a:has(b) { color: red }", [{| selector := "a:has(b)" |}]);
     ("a:hover { color: red }", [{| selector := "a:hover" |}])];
  t_selectors :=
    [("a:has(b)", [{| pseudo_value := ":has" |}]);
     ("a:hover", [{| pseudo_value := ":hover" |}])];
|}.

Definition demo_host : Host := table_host demo_tables.

Definition demo_features : list Feature :=
  @normalizeFeatures demo_host demo_catalog.

Definition feature_of (i n : string) (b : value) : Feature := {|
  id := Some i;
  name := Some n;
  baseline := b;
  description := VString "";
|}.

(** A second project: two scripts that differ in case only, a style sheet
    whose second selector does not parse, and a file that is neither a script
    nor a style sheet. *)
Definition extra_tables : tables := {|
  t_catalog := demo_catalog;
  t_disk :=
    [("/w/a.js", "fetch(url)");
     ("/w/b.js", "FETCH(Url)");
     ("/w/bad.js", "let = ;");
     ("/w/notes.md", "fetch");
     ("/w/two.css", "a:has(b) {} a::: {}")];
  t_json := [];
  t_listing := [(default_patterns, ["a.js"; "b.js"; "bad.js"; "notes.md"; "two.css"])];
  t_scripts :=
    [("fetch(url)", Other [Other [Other [Other [Identifier "fetch"; Identifier "url"]]]]);
     ("FETCH(Url)", Other [Other [Other [Other [Identifier "FETCH"; Identifier "Url"]]]])];
  t_sheets :=
    [("a:has(b) {} a::: {}", [{| selector := "a:has(b)" |}; {| selector := "a:::" |}])];
  t_selectors := [("a:has(b)", [{| pseudo_value := ":has" |}])];
|}.

Definition extra_host : Host := table_host extra_tables.

(** A third project, whose baseline.json holds the text null. *)
Definition null_tables : tables := {|
  t_catalog := demo_catalog;
  t_disk := [("/w/baseline.json", "null"); ("/w/a.js", "fetch(url)")];
  t_json := [("null", DocNull)];
  t_listing := [(default_patterns, ["a.js"])];
  t_scripts :=
    [("fetch(url)", Other [Other [Other [Other [Identifier "fetch"; Identifier "url"]]]])];
  t_sheets := [];
  t_selectors := [];
|}.

Definition null_host : Host := table_host null_tables.

(** * Properties *)

(** ** [Map] and [Set] *)

Section map_facts.
Context {K V : Type} `{EqDecision K}.
Implicit Types (m : JSMap.t K V) (k : K) (v : V).

Lemma get_set_eq m k v : JSMap.get (JSMap.set m k v) k = Some v.
Proof.
  induction m as [|[k' v'] m IH]; simpl.
  - by rewrite decide_True.
  - destruct (decide (k = k')) as [->|Hne]; simpl.
    + by rewrite decide_True.
    + by rewrite decide_False.
Qed.

Lemma get_set_ne m k k' v :
  k ≠ k' → JSMap.get (JSMap.set m k v) k' = JSMap.get m k'.
Proof.
  intros Hne. induction m as [|[k0 v0] m IH]; simpl.
  - by rewrite decide_False.
  - destruct (decide (k = k0)) as [->|Hk]; simpl.
    + by rewrite !decide_False.
    + by rewrite IH.
Qed.

Lemma get_None m k : JSMap.get m k = None ↔ k ∉ JSMap.keys m.
Proof.
  unfold JSMap.keys. induction m as [|[k' v'] m IH]; simpl.
  - split; [intros _; apply not_elem_of_nil | done].
  - rewrite not_elem_of_cons. destruct (decide (k = k')) as [Heq|Hne].
    + split; [done | intros [Hk _]; done].
    + rewrite IH. split; [done | intros [_ Hk]; done].
Qed.

Lemma get_Some_elem_of m k v : JSMap.get m k = Some v → (k, v) ∈ m.
Proof.
  induction m as [|[k' v'] m IH]; simpl; [done|].
  destruct (decide (k = k')) as [->|]; intros Hg.
  - injection Hg as ->. apply list_elem_of_here.
  - apply list_elem_of_further. auto.
Qed.

Lemma elem_of_get_Some m k v :
  NoDup (JSMap.keys m) → (k, v) ∈ m → JSMap.get m k = Some v.
Proof.
  unfold JSMap.keys. induction m as [|[k' v'] m IH]; simpl.
  - intros _ Hin. by apply elem_of_nil in Hin.
  - rewrite NoDup_cons. intros [Hk' Hnd] Hin.
    apply elem_of_cons in Hin as [Heq|Hin].
    + injection Heq as -> ->. by rewrite decide_True.
    + rewrite decide_False; [by apply IH|].
      intros ->. apply Hk'. apply list_elem_of_fmap. by exists (k', v).
Qed.

Lemma keys_set m k v :
  JSMap.keys (JSMap.set m k v) =
  if decide (k ∈ JSMap.keys m) then JSMap.keys m else JSMap.keys m ++ [k].
Proof.
  unfold JSMap.keys. induction m as [|[k' v'] m IH].
  - cbn [JSMap.set fmap list_fmap fst app].
    destruct (decide (k ∈ [])) as [Hin|_]; [by apply elem_of_nil in Hin | done].
  - cbn [JSMap.set]. destruct (decide (k = k')) as [->|Hne].
    + destruct (decide (k' ∈ ((k', v') :: m).*1)) as [_|Hn]; [done|].
      exfalso. apply Hn. apply list_elem_of_here.
    + rewrite !fmap_cons, IH. cbn [fst].
      destruct (decide (k ∈ m.*1)) as [Hin|Hin];
        destruct (decide (k ∈ (k' :: m.*1))) as [Hin'|Hin']; try done.
      * exfalso. apply Hin'. by apply list_elem_of_further.
      * apply elem_of_cons in Hin' as [?|?]; done.
Qed.

Lemma NoDup_keys_set m k v :
  NoDup (JSMap.keys m) → NoDup (JSMap.keys (JSMap.set m k v)).
Proof.
  intros Hnd. rewrite keys_set. destruct (decide (k ∈ JSMap.keys m)); [done|].
  apply NoDup_app. split; [done|]. split.
  - intros x Hx Hx'. apply list_elem_of_singleton in Hx' as ->. done.
  - apply NoDup_singleton.
Qed.

Lemma elem_of_keys_set m k v k' :
  k' ∈ JSMap.keys (JSMap.set m k v) ↔ k' ∈ JSMap.keys m ∨ k' = k.
Proof.
  rewrite keys_set. destruct (decide (k ∈ JSMap.keys m)) as [Hin|Hin].
  - split; [by left | by intros [?| ->]].
  - by rewrite elem_of_app, list_elem_of_singleton.
Qed.

Lemma Forall_set (P : K * V → Prop) m k v :
  P (k, v) → Forall P m → Forall P (JSMap.set m k v).
Proof.
  intros Hkv. induction m as [|[k' v'] m IH]; simpl; intros Hm.
  - by repeat constructor.
  - apply Forall_cons in Hm as [Hp Hm].
    destruct (decide (k = k')); constructor; auto.
Qed.

Lemma of_entries_fold (pairs : list (K * V)) m0 (P : K * V → Prop) :
  Forall P pairs → Forall P m0 →
  Forall P (fold_left (fun m p => JSMap.set m p.1 p.2) pairs m0).
Proof.
  revert m0. induction pairs as [|[k v] pairs IH]; intros m0 Hp Hm; simpl; [done|].
  apply Forall_cons in Hp as [Hkv Hp]. apply IH; [done|]. by apply Forall_set.
Qed.

Lemma keys_fold (pairs : list (K * V)) m0 k :
  k ∈ JSMap.keys m0 ∨ k ∈ pairs.*1 →
  k ∈ JSMap.keys (fold_left (fun m p => JSMap.set m p.1 p.2) pairs m0).
Proof.
  revert m0. induction pairs as [|[k' v] pairs IH]; intros m0; simpl.
  - intros [?|Hk]; [done | by apply elem_of_nil in Hk].
  - intros Hk. apply IH. rewrite elem_of_keys_set.
    destruct Hk as [?|Hk]; [by left; left|].
    apply elem_of_cons in Hk as [->|?]; [left; by right | by right].
Qed.

Lemma values_get m v :
  NoDup (JSMap.keys m) → v ∈ JSMap.values m ↔ ∃ k, JSMap.get m k = Some v.
Proof.
  intros Hnd. unfold JSMap.values. rewrite list_elem_of_fmap. split.
  - intros [[k v'] [-> Hin]]. exists k. by apply elem_of_get_Some.
  - intros [k Hg]. exists (k, v). split; [done|]. by apply get_Some_elem_of.
Qed.
End map_facts.

Section set_facts.
Context {A : Type} `{EqDecision A}.
Implicit Types (s : JSSet.t A) (x y : A).

Lemma elem_of_add s x y : y ∈ JSSet.add s x ↔ y ∈ s ∨ y = x.
Proof.
  unfold JSSet.add, JSSet.has. case_bool_decide as Hin.
  - split; [by left | by intros [?| ->]].
  - rewrite elem_of_app, list_elem_of_singleton. done.
Qed.

Lemma NoDup_add s x : NoDup s → NoDup (JSSet.add s x).
Proof.
  intros Hnd. unfold JSSet.add, JSSet.has. case_bool_decide as Hin; [done|].
  apply NoDup_app. split; [done|]. split.
  - intros z Hz Hz'. apply list_elem_of_singleton in Hz' as ->. done.
  - apply NoDup_singleton.
Qed.

Lemma add_elem_of s x : x ∈ s → JSSet.add s x = s.
Proof.
  intros Hin. unfold JSSet.add, JSSet.has. by rewrite bool_decide_eq_true_2.
Qed.
End set_facts.

(** ** Values and exceptions *)

Lemma strict_false_spec v : strict_false v = true ↔ v = VBool false.
Proof. destruct v as [| |[|]| | |]; simpl; split; intros Hv; done. Qed.

Lemma coalesce_spec a b : a ?? b = if nullish a then b else a.
Proof. reflexivity. Qed.

Lemma length_pos_nil {A} (l : list A) : (0 <? length l)%nat = false ↔ l = [].
Proof. destruct l; simpl; split; intros Hl; done. Qed.

(** ** The policy *)

Section policy.
Context `{Host}.

(** C1.  [unsafe] keeps, in order, exactly the results whose baseline is the
    boolean [false]; a result with any other baseline (a string, a number,
    an object, [true], [null]) is not in it; and [ok] holds exactly when
    [failOnLimited] is off or both [unsafe] and [criticalDetected] are
    empty. *)
Theorem policy_unsafe_and_ok (results : list Detail)
    (criticalFeatures : list string) (failOnLimited : bool) :
  unsafe results = filter (fun r => r_baseline r = VBool false) results
  ∧ (∀ r, r ∈ unsafe results ↔ r ∈ results ∧ r_baseline r = VBool false)
  ∧ (ok failOnLimited results criticalFeatures = true ↔
       failOnLimited = false
       ∨ (unsafe results = [] ∧ criticalDetected results criticalFeatures = [])).
Proof.
  split; [|split].
  - unfold unsafe. apply list_filter_iff. intros r. apply strict_false_spec.
  - intros r. unfold unsafe. rewrite list_elem_of_filter, strict_false_spec.
    split; intros [? ?]; done.
  - unfold ok. rewrite negb_true_iff, andb_false_iff, orb_false_iff.
    rewrite !length_pos_nil. done.
Qed.

(** Membership in [criticalDetected]: the critical list is lower-cased, the
    id of the result is taken as it is. *)
Lemma elem_of_criticalDetected (results : list Detail) (criticalFeatures : list string) r :
  r ∈ criticalDetected results criticalFeatures ↔
  r ∈ results ∧ ∃ c, c ∈ criticalFeatures ∧ r_id r = Some (toLowerCase c).
Proof.
  unfold criticalDetected, criticalLower. rewrite list_elem_of_filter.
  unfold includes. destruct (r_id r) as [i|].
  - rewrite bool_decide_eq_true, list_elem_of_fmap. split.
    + intros [(c & -> & Hc) Hr]. eauto.
    + intros [Hr (c & Hc & Heq)]. injection Heq as ->. eauto.
  - split; [intros [? _]; done | intros [_ (c & _ & ?)]; done].
Qed.
End policy.

(** ** The normalizer *)

Section normalizer.
Context `{Host}.

Lemma normalize_array_baseline (items : list raw_feature) :
  baseline <$> normalizeFeatures (RawArray items) =
  (fun f => if nullish (raw_baseline f)
            then (if nullish (raw_status f) then VBool false else raw_status f)
            else raw_baseline f) <$> items.
Proof.
  simpl. rewrite <- list_fmap_compose. apply list_fmap_ext. intros _ f _. simpl.
  unfold coalesce. destruct (nullish (raw_baseline f)) eqn:Hb; [reflexivity|].
  by rewrite Hb.
Qed.

Lemma normalize_object_baseline (entries : list (string * raw_feature)) :
  baseline <$> normalizeFeatures (RawObject entries) =
  (fun e => if nullish (raw_baseline e.2) then VBool false else raw_baseline e.2)
    <$> entries.
Proof.
  simpl. rewrite <- list_fmap_compose. apply list_fmap_ext. intros _ [i data] _.
  reflexivity.
Qed.

(** C4.  A record without [baseline] and with the legacy [status: true]:
    in the sequence shape its baseline is the status, in the keyed shape the
    status is not read and the baseline is [false]. *)
Theorem normalize_keyed_shape_drops_status :
  let data := record_of (Some "dialog") VUndefined (VBool true) in
  baseline <$> normalizeFeatures (RawArray [data]) = [VBool true]
  ∧ baseline <$> normalizeFeatures (RawObject [("dialog", data)]) = [VBool false].
Proof. split; reflexivity. Qed.
End normalizer.

(** ** The detectors *)

Section detectors.
Context `{Host}.

(** C5.  When the script parser throws on the text, [detectFeaturesInJS]
    returns the empty sequence and does not throw. *)
Theorem script_parse_failure_yields_empty (content : string)
    (features : list Feature) (e : exn) :
  parse content = Throw e →
  detectFeaturesInJS content features = Ok [].
Proof. intros Hp. unfold detectFeaturesInJS. by rewrite Hp. Qed.

(** C6.  When the stylesheet parser throws on the text, the very same
    exception leaves [detectFeaturesInCSS]: it is not caught there and no
    empty sequence is returned for it. *)
Theorem style_parse_failure_propagates (content : string)
    (features : list Feature) (e : exn) :
  postcss_parse content = Throw e →
  detectFeaturesInCSS content features = Throw e
  ∧ detectFeaturesInCSS content features ≠ Ok [].
Proof.
  intros Hp. unfold detectFeaturesInCSS. rewrite Hp. split; [reflexivity | discriminate].
Qed.
End detectors.

(** ** The merge *)

Section merge.
Context `{Host}.
Implicit Types (f g : Feature) (m : JSMap.t (option string) Feature).

Lemma merged_fold defaultFeatures localOverrides baselineIgnore :
  merged defaultFeatures localOverrides baselineIgnore =
  fold_left (merge_step baselineIgnore) (defaultFeatures ++ localOverrides) JSMap.empty.
Proof. reflexivity. Qed.

Lemma ignore_has_spec (s : list string) (k : option string) :
  ignore_has s k = true ↔ ∃ x, k = Some x ∧ x ∈ s.
Proof.
  destruct k as [x|]; simpl.
  - unfold JSSet.has. rewrite bool_decide_eq_true. split.
    + intros Hx. by exists x.
    + intros (y & Hy & Hin). by injection Hy as ->.
  - split; [done | intros (x & Hx & _); done].
Qed.

Lemma kept_false (s : list string) f :
  kept s f = false ↔
  (∃ k, name_key f = Some k ∧ k ∈ s) ∨ (∃ i, id f = Some i ∧ i ∈ s).
Proof.
  unfold kept. rewrite andb_false_iff, !negb_false_iff, !ignore_has_spec. done.
Qed.

Lemma well_keyed_set s m f :
  kept s f = true → well_keyed s m → well_keyed s (JSMap.set m (name_key f) f).
Proof.
  intros Hk. by apply Forall_set.
Qed.

Lemma well_keyed_fold s l m :
  well_keyed s m → well_keyed s (fold_left (merge_step s) l m).
Proof.
  revert m. induction l as [|f l IH]; intros m Hm; simpl; [done|].
  apply IH. unfold merge_step. destruct (kept s f) eqn:Hk; [|done].
  by apply well_keyed_set.
Qed.

Lemma well_keyed_merged defaultFeatures localOverrides s :
  well_keyed s (merged defaultFeatures localOverrides s).
Proof. rewrite merged_fold. apply well_keyed_fold. constructor. Qed.

(** The loop leaves a key alone when no kept feature that follows has it. *)
Lemma fold_get_untouched s l m k :
  (∀ g, g ∈ l → kept s g = true → name_key g ≠ k) →
  JSMap.get (fold_left (merge_step s) l m) k = JSMap.get m k.
Proof.
  revert m. induction l as [|f l IH]; intros m Hl; simpl; [done|].
  rewrite IH.
  - unfold merge_step. destruct (kept s f) eqn:Hk; [|done].
    apply get_set_ne. apply Hl; [apply list_elem_of_here | done].
  - intros g Hg. apply Hl. by apply list_elem_of_further.
Qed.

(** The binding of a key is the last kept feature that has it. *)
Lemma fold_get_last s l1 l2 m f :
  kept s f = true →
  (∀ g, g ∈ l2 → kept s g = true → name_key g ≠ name_key f) →
  JSMap.get (fold_left (merge_step s) (l1 ++ f :: l2) m) (name_key f) = Some f.
Proof.
  intros Hk Hl2. rewrite fold_left_app. simpl.
  rewrite fold_get_untouched by done.
  unfold merge_step at 1. rewrite Hk. apply get_set_eq.
Qed.

(** The ignore test as the loop makes it: on the lower-cased name and on the
    id as it is stored. *)
Lemma ignored_as_stored_not_merged (defaultFeatures localOverrides : list Feature)
    (baselineIgnore : list string) (f : Feature) :
  (∃ k, name_key f = Some k ∧ k ∈ baselineIgnore)
  ∨ (∃ i, id f = Some i ∧ i ∈ baselineIgnore) →
  (f ∉ JSMap.values (merged defaultFeatures localOverrides baselineIgnore))
  ∧ (∀ k, k ∈ baselineIgnore →
       JSMap.get (merged defaultFeatures localOverrides baselineIgnore) (Some k) = None).
Proof.
  intros Hf. apply kept_false in Hf.
  pose proof (well_keyed_merged defaultFeatures localOverrides baselineIgnore) as Hwk.
  unfold well_keyed in Hwk. rewrite Forall_forall in Hwk. split.
  - unfold JSMap.values. intros Hin. apply list_elem_of_fmap in Hin as ([k v] & -> & Hin).
    apply Hwk in Hin as [_ Hkept]. simpl in Hkept, Hf. congruence.
  - intros k Hk. destruct (JSMap.get _ (Some k)) as [v|] eqn:Hg; [|done].
    apply get_Some_elem_of, Hwk in Hg as [Hkey Hkept]. simpl in Hkey, Hkept.
    assert (kept baselineIgnore v = false) as Hv; [|congruence].
    apply kept_false. left. by exists k.
Qed.

(** C3.  Ids are lower-case tokens: the keys of the bundled catalog, and for
    a local override the lower-cased name.  For every feature with such an id
    (lower-casing leaves it as it is) and every ignore set: if the feature's
    lower-cased name or its lower-cased id is in the ignore set, the feature
    is skipped by the merge loop and is never a value of the merged table,
    whichever source it comes from; and no element of the ignore set is a key
    of the table. *)
Theorem ignored_feature_not_merged (defaultFeatures localOverrides : list Feature)
    (baselineIgnore : list string) (f : Feature) :
  (toLowerCase <$> id f) = id f →
  (∃ k, name_key f = Some k ∧ k ∈ baselineIgnore)
  ∨ (∃ i, id f = Some i ∧ toLowerCase i ∈ baselineIgnore) →
  kept baselineIgnore f = false
  ∧ (f ∉ JSMap.values (merged defaultFeatures localOverrides baselineIgnore))
  ∧ (∀ k, k ∈ baselineIgnore →
       JSMap.get (merged defaultFeatures localOverrides baselineIgnore) (Some k) = None).
Proof.
  intros Hlow Hf.
  assert ((∃ k, name_key f = Some k ∧ k ∈ baselineIgnore)
          ∨ (∃ i, id f = Some i ∧ i ∈ baselineIgnore)) as Hstored.
  { destruct Hf as [?|(i & Hi & Hin)]; [by left|]. right. exists i. split; [done|].
    rewrite Hi in Hlow. simpl in Hlow. injection Hlow as Hlow. by rewrite <- Hlow. }
  split; [by apply kept_false|].
  by apply ignored_as_stored_not_merged.
Qed.

(** On an object of records the overrides are built without an exception:
    one feature per entry, in order. *)
Lemma localOverrides_of_records (entries : list (string * raw_feature)) :
  localOverrides (of_records entries)
  = Ok ((fun p => {| id := Some (toLowerCase p.1);
                     name := Some p.1;
                     baseline := raw_baseline p.2 ?? VBool false;
                     description := raw_description p.2 ?? VString "" |}) <$> entries).
Proof.
  unfold localOverrides, of_records. simpl.
  induction entries as [|[n data] entries IH]; [done|].
  rewrite !fmap_cons. simpl. simpl in IH. by rewrite IH.
Qed.

(** C2, as the code has it.  When a bundled feature and a local override
    have the same lower-cased name, that name is not in the ignore set, and
    no later override has the same lower-cased name, the overrides are built
    without an exception and the merged table binds that name to the feature
    built from the override. *)
Theorem local_override_wins (defaultFeatures : list Feature)
    (before after : list (string * raw_feature)) (n : string) (data : raw_feature)
    (baselineIgnore : list string) (b : Feature) :
  b ∈ defaultFeatures →
  name_key b = Some (toLowerCase n) →
  toLowerCase n ∉ baselineIgnore →
  (∀ n' d', (n', d') ∈ after → toLowerCase n' ≠ toLowerCase n) →
  ∃ overrides,
    localOverrides (of_records (before ++ (n, data) :: after)) = Ok overrides
    ∧ JSMap.get (merged defaultFeatures overrides baselineIgnore) (Some (toLowerCase n))
      = Some {| id := Some (toLowerCase n);
                name := Some n;
                baseline := raw_baseline data ?? VBool false;
                description := raw_description data ?? VString "" |}.
Proof.
  intros _ _ Hig Hafter. eexists. split; [apply localOverrides_of_records|].
  rewrite merged_fold.
  rewrite fmap_app, fmap_cons, app_assoc. cbn [fst snd].
  set (f := {| id := Some (toLowerCase n); name := Some n;
               baseline := raw_baseline data ?? VBool false;
               description := raw_description data ?? VString "" |}).
  change (Some (toLowerCase n)) with (name_key f) at 1.
  apply fold_get_last.
  - unfold kept, name_key. simpl. unfold JSSet.has.
    by rewrite bool_decide_eq_false_2.
  - intros g Hg _. apply list_elem_of_fmap in Hg as ([n' d'] & -> & Hin).
    unfold name_key. simpl. intros Heq. injection Heq as Heq.
    by eapply Hafter.
Qed.
End merge.

(** ** The style detector on well-formed text *)

Section style_detector.
Context `{Host}.
Implicit Types (fm : JSMap.t (option string) Feature) (used : JSSet.t Feature).

Lemma featureMap_get_Some features k f :
  JSMap.get (featureMap features) k = Some f → f ∈ features ∧ name_key f = k.
Proof.
  intros Hg. apply get_Some_elem_of in Hg.
  assert (Forall (fun p => p.2 ∈ features ∧ name_key p.2 = p.1) (featureMap features)) as Hall.
  { apply of_entries_fold; [|constructor].
    apply Forall_fmap, Forall_forall. intros g Hin. by split. }
  rewrite Forall_forall in Hall. by apply Hall in Hg.
Qed.

Lemma featureMap_get_is_Some features f :
  f ∈ features → ∃ f', JSMap.get (featureMap features) (name_key f) = Some f'.
Proof.
  intros Hin. destruct (JSMap.get _ (name_key f)) as [f'|] eqn:Hg; [by exists f'|].
  exfalso. apply get_None in Hg. apply Hg. apply keys_fold. right.
  rewrite <- list_fmap_compose. apply list_elem_of_fmap. by exists f.
Qed.

Lemma elem_of_probe fm k used f :
  f ∈ probe fm k used ↔ f ∈ used ∨ JSMap.get fm k = Some f.
Proof.
  unfold probe. destruct (JSMap.get fm k) as [g|].
  - rewrite elem_of_add. split; intros [?|Heq]; auto.
    + right. by rewrite Heq.
    + right. by injection Heq.
  - split; [by left | by intros [?|?]].
Qed.

Lemma NoDup_probe fm k used : NoDup used → NoDup (probe fm k used).
Proof.
  unfold probe. destruct (JSMap.get fm k); [apply NoDup_add | done].
Qed.

(** The key a pseudo node is looked up under. *)
Lemma elem_of_visit_Pseudos fm pseudos used f :
  f ∈ fold_left (visit_Pseudo fm) pseudos used ↔
  f ∈ used
  ∨ ∃ p, p ∈ pseudos
         ∧ JSMap.get fm (Some (toLowerCase (strip_colons (pseudo_value p)))) = Some f.
Proof.
  revert used. induction pseudos as [|p pseudos IH]; intros used; simpl.
  - split; [by left | intros [?|(p & Hp & _)]; [done | by apply elem_of_nil in Hp]].
  - rewrite IH. unfold visit_Pseudo at 1. rewrite elem_of_probe. split.
    + intros [[?|Hg]|(q & Hq & Hg)]; [by left | right; exists p | right; exists q].
      * split; [apply list_elem_of_here | done].
      * split; [by apply list_elem_of_further | done].
    + intros [?|(q & Hq & Hg)]; [by left; left|].
      apply elem_of_cons in Hq as [->|Hq]; [left; by right | right; by exists q].
Qed.

Lemma NoDup_visit_Pseudos fm pseudos used :
  NoDup used → NoDup (fold_left (visit_Pseudo fm) pseudos used).
Proof.
  revert used. induction pseudos as [|p pseudos IH]; intros used Hnd; simpl; [done|].
  apply IH. by apply NoDup_probe.
Qed.

(** When every selector parses, the walk over the rules is one walk over
    all their pseudo nodes. *)
Lemma walkRules_ok fm (root : list Rule) (pseudos : list (list Pseudo)) used :
  Forall2 (fun rule ps => processSync (selector rule) = Ok ps) root pseudos →
  for_of (visit_Rule fm) root used
  = Ok (fold_left (visit_Pseudo fm) (concat pseudos) used).
Proof.
  intros Hall. revert used.
  induction Hall as [|rule ps root pseudos Hps _ IH]; intros used; simpl; [done|].
  assert (visit_Rule fm used rule = Ok (fold_left (visit_Pseudo fm) ps used)) as ->.
  { unfold visit_Rule. by rewrite Hps. }
  simpl. rewrite fold_left_app. apply IH.
Qed.

(** A pseudo value is a run of colons followed by a token that starts with
    no colon, in one way only, and [strip_colons] gives the token. *)
Lemma strip_colons_token n token :
  (∀ t, token ≠ String ":" t) →
  strip_colons (string_of_list_ascii (replicate n ":"%char) +:+ token) = token.
Proof.
  intros Htok. induction n as [|n IH].
  - change (strip_colons token = token). destruct token as [|c t]; [done|].
    destruct (decide (c = ":"%char)) as [->|Hne]; [by destruct (Htok t)|].
    simpl. destruct c as [[] [] [] [] [] [] [] []]; done.
  - exact IH.
Qed.

Lemma strip_colons_split s :
  ∃ n, s = string_of_list_ascii (replicate n ":"%char) +:+ strip_colons s
       ∧ ∀ t, strip_colons s ≠ String ":" t.
Proof.
  induction s as [|c s (n & IH & Htok)].
  - exists 0. by split.
  - destruct (decide (c = ":"%char)) as [->|Hne].
    + exists (S n). split; [|exact Htok].
      change (String ":" s
              = String ":" (string_of_list_ascii (replicate n ":"%char) +:+ strip_colons s)).
      f_equal. exact IH.
    + assert (strip_colons (String c s) = String c s) as ->
        by (simpl; destruct c as [[] [] [] [] [] [] [] []]; done).
      exists 0. split; [done|]. intros t Heq. by injection Heq.
Qed.

(** The key under which a pseudo node is looked up, without [strip_colons]. *)
Lemma pseudo_key_token fm (pseudos : list Pseudo) f :
  (∃ p, p ∈ pseudos
        ∧ JSMap.get fm (Some (toLowerCase (strip_colons (pseudo_value p)))) = Some f)
  ↔ ∃ p n token,
      p ∈ pseudos
      ∧ pseudo_value p = string_of_list_ascii (replicate n ":"%char) +:+ token
      ∧ (∀ t, token ≠ String ":" t)
      ∧ JSMap.get fm (Some (toLowerCase token)) = Some f.
Proof.
  split.
  - intros (p & Hp & Hg). destruct (strip_colons_split (pseudo_value p)) as (n & Hv & Htok).
    by exists p, n, (strip_colons (pseudo_value p)).
  - intros (p & n & token & Hp & Hv & Htok & Hg). exists p. split; [done|].
    by rewrite Hv, strip_colons_token.
Qed.

(** C8.  On a stylesheet whose rules all have a selector that parses, every
    pseudo node is looked up as follows: its value is a run of colons
    followed by a token that starts with no colon; all these colons are
    dropped and the token is lower-cased before the table is probed.  The
    detected features are exactly the table's bindings of these lower-cased
    tokens.  So a detected feature is a catalog feature whose lower-cased
    name is such a token; a token that is the lower-cased name of a catalog
    feature yields a detection under that name, and so a pseudo node with
    value ":has" (as in a:has(b)) yields one for a catalog entry named
    "has"; and when no token is the lower-cased name of a catalog feature (as
    ":hover" without an entry named "hover"), nothing is detected. *)
Theorem style_detection_by_pseudo_name (content : string) (features : list Feature)
    (root : list Rule) (pseudos : list (list Pseudo)) :
  postcss_parse content = Ok root →
  Forall2 (fun rule ps => processSync (selector rule) = Ok ps) root pseudos →
  ∃ detected,
    detectFeaturesInCSS content features = Ok detected
    ∧ NoDup detected
    ∧ (∀ f, f ∈ detected ↔
         ∃ p n token,
           p ∈ concat pseudos
           ∧ pseudo_value p = string_of_list_ascii (replicate n ":"%char) +:+ token
           ∧ (∀ t, token ≠ String ":" t)
           ∧ JSMap.get (featureMap features) (Some (toLowerCase token)) = Some f)
    ∧ (∀ f, f ∈ detected →
         f ∈ features
         ∧ ∃ p n token,
             p ∈ concat pseudos
             ∧ pseudo_value p = string_of_list_ascii (replicate n ":"%char) +:+ token
             ∧ (∀ t, token ≠ String ":" t)
             ∧ (toLowerCase <$> name f) = Some (toLowerCase token))
    ∧ (∀ p n token f,
         p ∈ concat pseudos →
         pseudo_value p = string_of_list_ascii (replicate n ":"%char) +:+ token →
         (∀ t, token ≠ String ":" t) →
         f ∈ features →
         (toLowerCase <$> name f) = Some (toLowerCase token) →
         ∃ f', f' ∈ detected ∧ (toLowerCase <$> name f') = (toLowerCase <$> name f))
    ∧ (∀ p f,
         p ∈ concat pseudos → pseudo_value p = ":has" →
         f ∈ features → name f = Some "has" →
         ∃ f', f' ∈ detected ∧ (toLowerCase <$> name f') = Some (toLowerCase "has"))
    ∧ ((∀ p n token f,
          p ∈ concat pseudos →
          pseudo_value p = string_of_list_ascii (replicate n ":"%char) +:+ token →
          (∀ t, token ≠ String ":" t) →
          f ∈ features →
          (toLowerCase <$> name f) ≠ Some (toLowerCase token)) →
       detected = []).
Proof.
  intros Hroot Hall. eexists. unfold detectFeaturesInCSS. rewrite Hroot. simpl.
  rewrite (walkRules_ok _ _ _ _ Hall). simpl. split; [reflexivity|].
  unfold JSSet.to_list.
  set (detected := fold_left (visit_Pseudo (featureMap features)) (concat pseudos)
                             JSSet.empty).
  assert (∀ f, f ∈ detected ↔
            ∃ p n token,
              p ∈ concat pseudos
              ∧ pseudo_value p = string_of_list_ascii (replicate n ":"%char) +:+ token
              ∧ (∀ t, token ≠ String ":" t)
              ∧ JSMap.get (featureMap features) (Some (toLowerCase token)) = Some f)
    as Hiff.
  { intros f. rewrite <- pseudo_key_token. unfold detected.
    rewrite elem_of_visit_Pseudos. split; [|by right].
    intros [Hin|?]; [by apply elem_of_nil in Hin | done]. }
  assert (∀ p n token f,
            p ∈ concat pseudos →
            pseudo_value p = string_of_list_ascii (replicate n ":"%char) +:+ token →
            (∀ t, token ≠ String ":" t) →
            f ∈ features →
            (toLowerCase <$> name f) = Some (toLowerCase token) →
            ∃ f', f' ∈ detected ∧ (toLowerCase <$> name f') = (toLowerCase <$> name f))
    as Hcomplete.
  { intros p n token f Hp Hv Htok Hin Hname.
    destruct (featureMap_get_is_Some features f Hin) as [f' Hg].
    exists f'. split.
    - apply Hiff. exists p, n, token. repeat split; try done.
      unfold name_key in Hg. by rewrite <- Hname.
    - by apply featureMap_get_Some in Hg as [_ Hkey]. }
  split; [|split; [|split; [|split; [|split]]]].
  - apply NoDup_visit_Pseudos. constructor.
  - exact Hiff.
  - intros f Hf. apply Hiff in Hf as (p & n & token & Hp & Hv & Htok & Hg).
    apply featureMap_get_Some in Hg as [Hin Hkey]. split; [done|].
    by exists p, n, token.
  - exact Hcomplete.
  - intros p f Hp Hv Hin Hname.
    destruct (Hcomplete p 1 "has" f Hp Hv) as (f' & Hf' & Hkey); try done.
    + by rewrite Hname.
    + exists f'. split; [done|]. by rewrite Hkey, Hname.
  - intros Hnone. destruct detected as [|f l] eqn:Hd; [done|]. exfalso.
    assert (f ∈ f :: l) as Hf by apply list_elem_of_here.
    apply Hiff in Hf as (p & n & token & Hp & Hv & Htok & Hg).
    apply featureMap_get_Some in Hg as [Hin Hkey].
    by apply (Hnone p n token f).
Qed.
End style_detector.

(** ** The report *)

Section first_seen_facts.
Context {A : Type} `{EqDecision A}.
Implicit Types (l : list A) (x y : A).

Lemma elem_of_first_seen l x : x ∈ first_seen l ↔ x ∈ l.
Proof.
  induction l as [|a l IH]; simpl; [done|].
  rewrite !elem_of_cons, list_elem_of_filter, IH.
  destruct (decide (x = a)) as [->|Hne]; [by split; left|].
  split; [intros [?|[_ ?]]; auto | intros [?|?]; auto].
Qed.

Lemma NoDup_first_seen l : NoDup (first_seen l).
Proof.
  induction l as [|a l IH]; simpl; constructor.
  - rewrite list_elem_of_filter. by intros [Hne _].
  - by apply NoDup_filter.
Qed.

Lemma first_seen_snoc l x :
  first_seen (l ++ [x]) = if decide (x ∈ l) then first_seen l else first_seen l ++ [x].
Proof.
  induction l as [|a l IH]; simpl.
  - destruct (decide (x ∈ [])) as [Hin|_]; [by apply elem_of_nil in Hin | done].
  - rewrite IH. destruct (decide (x = a)) as [->|Hne].
    + destruct (decide (a ∈ a :: l)) as [_|Hn]; [|exfalso; apply Hn; apply list_elem_of_here].
      destruct (decide (a ∈ l)); [done|].
      rewrite filter_app, filter_cons_False by (intros Hc; by apply Hc).
      by rewrite filter_nil, app_nil_r.
    + destruct (decide (x ∈ l)) as [Hin|Hin];
        destruct (decide (x ∈ a :: l)) as [Hin'|Hin']; try done.
      * exfalso. apply Hin'. by apply list_elem_of_further.
      * apply elem_of_cons in Hin' as [?|?]; done.
      * rewrite filter_app, filter_cons_True by done. by rewrite filter_nil.
Qed.
End first_seen_facts.

Section report.
Implicit Types (report : JSMap.t (option string) entry) (hit : string * Feature).

(** One detection recorded. *)
Lemma aggregate_hits stream : aggregate stream = report_of (hits stream).
Proof.
  unfold aggregate, report_of, hits. generalize (JSMap.empty : JSMap.t (option string) entry).
  induction stream as [|[file detected] stream IH]; intros report; simpl; [done|].
  rewrite fold_left_app, IH. f_equal. clear IH.
  revert report. induction detected as [|f detected IHd]; intros report; simpl; [done|].
  apply IHd.
Qed.
Lemma report_of_snoc l file f :
  report_of (l ++ [(file, f)]) = record file (report_of l) f.
Proof. unfold report_of. by rewrite fold_left_app. Qed.

Lemma keys_record file report f :
  JSMap.keys (record file report f)
  = if decide (id f ∈ JSMap.keys report) then JSMap.keys report
    else JSMap.keys report ++ [id f].
Proof. unfold record. apply keys_set. Qed.

Lemma keys_report_of l :
  JSMap.keys (report_of l) = first_seen ((fun hit => id hit.2) <$> l).
Proof.
  induction l as [|[file f] l IH] using rev_ind; [done|].
  rewrite report_of_snoc, keys_record, IH, fmap_app.
  change ((fun hit : string * Feature => id hit.2) <$> [(file, f)]) with [id f].
  rewrite first_seen_snoc.
  destruct (decide (id f ∈ first_seen ((fun hit => id hit.2) <$> l))) as [Hin|Hin];
    destruct (decide (id f ∈ (fun hit => id hit.2) <$> l)) as [Hin'|Hin']; try done.
  - exfalso. apply Hin'. by apply elem_of_first_seen.
  - exfalso. apply Hin. by apply elem_of_first_seen.
Qed.

Lemma get_report_of_None l i :
  JSMap.get (report_of l) i = None → ∀ file f, (file, f) ∈ l → id f ≠ i.
Proof.
  intros Hg file f Hin <-. apply get_None in Hg. apply Hg.
  rewrite keys_report_of, elem_of_first_seen. apply list_elem_of_fmap.
  by exists (file, f).
Qed.

(** The entry of an id: its files are those of the detections with that
    id, each once. *)
Lemma get_report_of l i e :
  JSMap.get (report_of l) i = Some e →
  NoDup (files e) ∧ ∀ file, file ∈ files e ↔ ∃ f, (file, f) ∈ l ∧ id f = i.
Proof.
  revert i e. induction l as [|[file0 f0] l IH] using rev_ind; intros i e; [done|].
  rewrite report_of_snoc. unfold record.
  destruct (decide (id f0 = i)) as [<-|Hne].
  - rewrite get_set_eq. intros He. injection He as <-. simpl.
    destruct (JSMap.get (report_of l) (id f0)) as [e1|] eqn:Hg1; simpl.
    + destruct (IH _ _ Hg1) as [Hnd Hfiles]. split; [by apply NoDup_add|].
      intros file. rewrite elem_of_add, Hfiles. split.
      * intros [(f & Hin & Hid)| ->].
        -- exists f. split; [|done]. apply elem_of_app. by left.
        -- exists f0. split; [|done]. apply elem_of_app. right. apply list_elem_of_here.
      * intros (f & Hin & Hid). apply elem_of_app in Hin as [Hin|Hin].
        -- left. by exists f.
        -- apply list_elem_of_singleton in Hin. right. congruence.
    + split; [apply NoDup_add; constructor|].
      intros file. rewrite elem_of_add. split.
      * intros [Hin| ->]; [by apply elem_of_nil in Hin|].
        exists f0. split; [|done]. apply elem_of_app. right. apply list_elem_of_here.
      * intros (f & Hin & Hid). apply elem_of_app in Hin as [Hin|Hin].
        -- exfalso. by eapply (get_report_of_None _ _ Hg1).
        -- apply list_elem_of_singleton in Hin. right. congruence.
  - rewrite get_set_ne by done. intros Hg. destruct (IH _ _ Hg) as [Hnd Hfiles].
    split; [done|]. intros file. rewrite Hfiles. split.
    + intros (f & Hin & Hid). exists f. split; [|done]. apply elem_of_app. by left.
    + intros (f & Hin & Hid). exists f. split; [|done].
      apply elem_of_app in Hin as [Hin|Hin]; [done|].
      apply list_elem_of_singleton in Hin. congruence.
Qed.

End report.

Section report_theorem.
Implicit Types (report : JSMap.t (option string) entry).




Lemma elem_of_hits stream file f :
  (file, f) ∈ hits stream ↔ ∃ detected, (file, detected) ∈ stream ∧ f ∈ detected.
Proof.
  unfold hits. rewrite list_elem_of_bind. split.
  - intros ([file' detected] & Hin & Hs). apply list_elem_of_fmap in Hin as (g & Heq & Hg).
    injection Heq as -> ->. by exists detected.
  - intros (detected & Hs & Hin). exists (file, detected). split; [|done].
    apply list_elem_of_fmap. by exists f.
Qed.


End report_theorem.

(** ** The loop over the files *)

Section scan_loop.
Context `{Host}.
Implicit Types (report : JSMap.t (option string) entry).

Lemma scan_file_detected_in cwd features report file :
  scan_file cwd features report file
  = (detected ← detected_in cwd features file;
     Ok (fold_left (record file) detected report)).
Proof.
  unfold scan_file, detected_in. by destruct (readFile (join cwd file)).
Qed.

Lemma scan_step_spec cwd features report file :
  scan_step cwd features report file
  = Ok match detected_in cwd features file with
       | Ok detected => fold_left (record file) detected report
       | Throw _ => report
       end.
Proof.
  unfold scan_step. rewrite scan_file_detected_in.
  by destruct (detected_in cwd features file).
Qed.

Lemma scan_from cwd features files report :
  for_of (scan_step cwd features) files report
  = Ok (fold_left (fun report '(file, detected) => fold_left (record file) detected report)
                  (stream_of cwd features files) report).
Proof.
  revert report. induction files as [|file files IH]; intros report; simpl; [done|].
  rewrite scan_step_spec. simpl. rewrite IH. unfold stream_of. simpl.
  by destruct (detected_in cwd features file).
Qed.

Lemma scan_aggregate cwd features files :
  scan cwd features files = Ok (aggregate (stream_of cwd features files)).
Proof. apply scan_from. Qed.

Lemma try_catch_never_throws {A} (m : result A) (a : A) :
  ∃ r, try_catch m (fun _ => Ok a) = Ok r.
Proof. destruct m as [r|e]; [by exists r | by exists a]. Qed.

(** [run], with the two loaders, the merge and the loop resolved: what is
    left to throw is the building of the overrides and the file listing. *)
Lemma run_resolved patternsArr cwd failOnLimited criticalFeatures :
  ∃ ignore baselineJson,
    loadBaselineIgnore cwd = Ok ignore
    ∧ loadBaselineJson cwd = Ok baselineJson
    ∧ run patternsArr cwd failOnLimited criticalFeatures
      = match localOverrides baselineJson with
        | Throw e => Throw e
        | Ok overrides =>
            match fg patternsArr cwd with
            | Throw e => Throw e
            | Ok listing =>
                let features :=
                  JSMap.values (merged (normalizeFeatures wfFeatures) overrides ignore) in
                let rs := results (aggregate (stream_of cwd features listing)) in
                Ok {| v_ok := ok failOnLimited rs criticalFeatures;
                      v_details := rs;
                      v_criticalDetected := criticalDetected rs criticalFeatures |}
            end
        end.
Proof.
  destruct (try_catch_never_throws
              (content ← readFile (join cwd ".baselineignore");
               Ok (JSSet.of_list
                     (filter (fun line => truthy_string line = true)
                        ((fun line => toLowerCase (trim line)) <$> split_lines content))))
              JSSet.empty) as [ignore Hignore].
  destruct (try_catch_never_throws
              (raw ← readFile (join cwd "baseline.json"); JSON_parse raw) (DocEntries []))
    as [json Hjson].
  exists ignore, json. split; [exact Hignore|]. split; [exact Hjson|].
  unfold run. unfold loadBaselineIgnore. rewrite Hignore. simpl.
  unfold loadBaselineJson. rewrite Hjson. simpl.
  destruct (localOverrides json) as [overrides|e]; simpl; [|done].
  destruct (fg patternsArr cwd) as [listing|e]; simpl; [|done].
  by rewrite scan_aggregate.
Qed.

(** C10.  In the loop of [run], whatever the [try] block of a file throws
    is caught: the turn ends normally with the report as it was.  This
    holds in particular for a style sheet on which the stylesheet parser
    throws.  So the loop never throws and its report is the aggregation of
    the files that did not throw.  An exception that leaves [run] is never
    that of a file: it is the one thrown by the file listing, or the one
    thrown while the overrides are built from baseline.json, both before the
    loop; when neither throws, [run] returns a verdict. *)
Theorem per_file_errors_are_caught (cwd : string) (features : list Feature) :
  (∀ report file e,
     scan_file cwd features report file = Throw e →
     scan_step cwd features report file = Ok report)
  ∧ (∀ report file content e,
       readFile (join cwd file) = Ok content →
       is_script file = false → endsWith file ".css" = true →
       postcss_parse content = Throw e →
       scan_file cwd features report file = Throw e
       ∧ scan_step cwd features report file = Ok report)
  ∧ (∀ files, scan cwd features files = Ok (aggregate (stream_of cwd features files)))
  ∧ (∀ patternsArr failOnLimited criticalFeatures e,
       run patternsArr cwd failOnLimited criticalFeatures = Throw e →
       fg patternsArr cwd = Throw e
       ∨ ∃ baselineJson, loadBaselineJson cwd = Ok baselineJson
                         ∧ localOverrides baselineJson = Throw e)
  ∧ (∀ patternsArr failOnLimited criticalFeatures baselineJson overrides files,
       loadBaselineJson cwd = Ok baselineJson →
       localOverrides baselineJson = Ok overrides →
       fg patternsArr cwd = Ok files →
       ∃ verdict, run patternsArr cwd failOnLimited criticalFeatures = Ok verdict).
Proof.
  split; [|split; [|split; [|split]]].
  - intros report file e Hthrow. unfold scan_step. by rewrite Hthrow.
  - intros report file content e Hread Hjs Hcss Hparse.
    assert (scan_file cwd features report file = Throw e) as Hthrow.
    { unfold scan_file. rewrite Hread. simpl. unfold detect. rewrite Hjs, Hcss.
      unfold detectFeaturesInCSS. by rewrite Hparse. }
    split; [done|]. unfold scan_step. by rewrite Hthrow.
  - apply scan_aggregate.
  - intros patternsArr failOnLimited criticalFeatures e.
    destruct (run_resolved patternsArr cwd failOnLimited criticalFeatures)
      as (ignore & json & _ & Hjson & ->).
    destruct (localOverrides json) as [overrides|e'] eqn:Hover.
    + destruct (fg patternsArr cwd) as [listing|e'']; [done|].
      intros He. injection He as ->. by left.
    + intros He. injection He as ->. right. by exists json.
  - intros patternsArr failOnLimited criticalFeatures json overrides files Hjson Hover Hfg.
    destruct (run_resolved patternsArr cwd failOnLimited criticalFeatures)
      as (ignore & json' & _ & Hjson' & ->).
    rewrite Hjson in Hjson'. injection Hjson' as <-. rewrite Hover, Hfg. eauto.
Qed.
End scan_loop.

(** ** Critical features *)

Section critical.
Context `{Host}.

(** C7.  Ids are lower-case tokens: the keys of the bundled catalog, and for
    a local override the lower-cased name.  For every report whose ids are
    such (lower-casing leaves them as they are) and every critical list:
    [criticalDetected] holds exactly the results whose id matches an element
    of the critical list without regard to case, whatever their baseline; and
    with [failOnLimited] on, such a result makes [ok] false, also when its
    baseline is [true]. *)
Theorem critical_entries_case_insensitive (results : list Detail)
    (criticalFeatures : list string) :
  (∀ r, r ∈ results → (toLowerCase <$> r_id r) = r_id r) →
  (∀ r, r ∈ criticalDetected results criticalFeatures ↔
        r ∈ results
        ∧ ∃ c, c ∈ criticalFeatures ∧ (toLowerCase <$> r_id r) = Some (toLowerCase c))
  ∧ (∀ r, r ∈ results →
          (∃ c, c ∈ criticalFeatures ∧ (toLowerCase <$> r_id r) = Some (toLowerCase c)) →
          ok true results criticalFeatures = false).
Proof.
  intros Hlow.
  assert (∀ r, r ∈ criticalDetected results criticalFeatures ↔
               r ∈ results
               ∧ ∃ c, c ∈ criticalFeatures
                      ∧ (toLowerCase <$> r_id r) = Some (toLowerCase c)) as Hiff.
  { intros r. rewrite elem_of_criticalDetected. split.
    - intros [Hr Hc]. split; [done|]. by rewrite (Hlow r Hr).
    - intros [Hr Hc]. split; [done|]. by rewrite <- (Hlow r Hr). }
  split; [exact Hiff|].
  intros r Hr Hc.
  assert (r ∈ criticalDetected results criticalFeatures) as Hin by (by apply Hiff).
  unfold ok. simpl. destruct (criticalDetected results criticalFeatures); simpl.
  - by apply elem_of_nil in Hin.
  - by rewrite orb_true_r.
Qed.
End critical.

(** ** The demo project *)

Section demo.
Local Existing Instance demo_host.

Let bundled_Foo : list Feature :=
  normalizeFeatures (RawArray [record_of (Some "Foo") (VBool false) VUndefined]).
Let yes : raw_feature := record_of None (VBool true) VUndefined.
Let no : raw_feature := record_of None (VBool false) VUndefined.

Example strip_colons_has : strip_colons ":has" = "has".
Proof. reflexivity. Qed.

Example strip_colons_before : strip_colons "::before" = "before".
Proof. reflexivity. Qed.

Example detect_has :
  detectFeaturesInCSS "a:has(b) { color: red }" demo_features
  = Ok [feature_of "has" "has" (VBool true)].
Proof. reflexivity. Qed.

Example detect_hover :
  detectFeaturesInCSS "a:hover { color: red }" demo_features = Ok [].
Proof. reflexivity. Qed.

Example override_Foo :
  localOverrides (of_records [("foo", yes)]) = Ok [feature_of "foo" "foo" (VBool true)]
  ∧ JSMap.get (merged bundled_Foo [feature_of "foo" "foo" (VBool true)] []) (Some "foo")
    = Some (feature_of "foo" "foo" (VBool true)).
Proof. split; reflexivity. Qed.

(** C2 fails as it is stated.  A bundled "Foo" and a local "foo" share the
    key "foo"; with "foo" in the ignore set the table has no entry for it,
    and with a second override "FOO" the entry is that one's feature. *)
Lemma override_counterexample :
  (∃ b, b ∈ bundled_Foo ∧ name_key b = Some "foo")
  ∧ localOverrides (of_records [("foo", yes)]) = Ok [feature_of "foo" "foo" (VBool true)]
  ∧ JSMap.get (merged bundled_Foo [feature_of "foo" "foo" (VBool true)] ["foo"])
      (Some "foo")
    = None
  ∧ localOverrides (of_records [("foo", yes); ("FOO", no)])
    = Ok [feature_of "foo" "foo" (VBool true); feature_of "foo" "FOO" (VBool false)]
  ∧ JSMap.get (merged bundled_Foo
                 [feature_of "foo" "foo" (VBool true); feature_of "foo" "FOO" (VBool false)]
                 [])
      (Some "foo")
    = Some (feature_of "foo" "FOO" (VBool false)).
Proof.
  split; [|repeat split; reflexivity].
  exists (feature_of "foo" "Foo" (VBool false)). split; [|reflexivity].
  apply list_elem_of_here.
Qed.

Lemma local_override_wins_witness :
  feature_of "foo" "Foo" (VBool false) ∈ bundled_Foo
  ∧ name_key (feature_of "foo" "Foo" (VBool false)) = Some (toLowerCase "foo")
  ∧ (toLowerCase "foo" ∉ ([] : list string))
  ∧ (∀ n' d', (n', d') ∈ ([] : list (string * raw_feature)) →
       toLowerCase n' ≠ toLowerCase "foo")
  ∧ ∃ overrides,
      localOverrides (of_records ([] ++ ("foo", yes) :: [])) = Ok overrides
      ∧ JSMap.get (merged bundled_Foo overrides []) (Some (toLowerCase "foo"))
        = Some {| id := Some (toLowerCase "foo");
                  name := Some "foo";
                  baseline := raw_baseline yes ?? VBool false;
                  description := raw_description yes ?? VString "" |}.
Proof.
  assert (feature_of "foo" "Foo" (VBool false) ∈ bundled_Foo) as Hb
    by apply list_elem_of_here.
  assert (∀ n' d', (n', d') ∈ ([] : list (string * raw_feature)) →
            toLowerCase n' ≠ toLowerCase "foo") as Hafter
    by (intros n' d' Hin; by apply elem_of_nil in Hin).
  split; [exact Hb|]. split; [reflexivity|]. split; [apply not_elem_of_nil|].
  split; [exact Hafter|].
  exact (local_override_wins bundled_Foo [] [] "foo" yes []
           (feature_of "foo" "Foo" (VBool false))
           Hb eq_refl (not_elem_of_nil _) Hafter).
Defined.

Lemma ignored_feature_not_merged_witness :
  (toLowerCase <$> id (feature_of "foo-api" "Bar" (VBool false)))
  = id (feature_of "foo-api" "Bar" (VBool false))
  ∧ ((∃ k, name_key (feature_of "foo-api" "Bar" (VBool false)) = Some k
           ∧ k ∈ ["foo-api"])
     ∨ (∃ i, id (feature_of "foo-api" "Bar" (VBool false)) = Some i
             ∧ toLowerCase i ∈ ["foo-api"]))
  ∧ kept ["foo-api"] (feature_of "foo-api" "Bar" (VBool false)) = false
  ∧ (feature_of "foo-api" "Bar" (VBool false)
     ∉ JSMap.values (merged [feature_of "foo-api" "Bar" (VBool false)]
                            [feature_of "foo" "foo" (VBool true)] ["foo-api"]))
  ∧ (∀ k, k ∈ ["foo-api"] →
       JSMap.get (merged [feature_of "foo-api" "Bar" (VBool false)]
                         [feature_of "foo" "foo" (VBool true)] ["foo-api"]) (Some k)
       = None).
Proof.
  assert ((∃ k, name_key (feature_of "foo-api" "Bar" (VBool false)) = Some k
                ∧ k ∈ ["foo-api"])
          ∨ (∃ i, id (feature_of "foo-api" "Bar" (VBool false)) = Some i
                  ∧ toLowerCase i ∈ ["foo-api"]))
    as Hf.
  { right. exists "foo-api". split; [reflexivity | apply list_elem_of_here]. }
  assert ((toLowerCase <$> id (feature_of "foo-api" "Bar" (VBool false)))
          = id (feature_of "foo-api" "Bar" (VBool false))) as Hlow by reflexivity.
  split; [exact Hlow|]. split; [exact Hf|].
  exact (ignored_feature_not_merged [feature_of "foo-api" "Bar" (VBool false)]
           [feature_of "foo" "foo" (VBool true)] ["foo-api"]
           (feature_of "foo-api" "Bar" (VBool false)) Hlow Hf).
Defined.

Lemma script_parse_failure_witness :
  parse "let = ;" = Throw "SyntaxError"
  ∧ detectFeaturesInJS "let = ;" demo_features = Ok [].
Proof.
  split; [reflexivity|].
  exact (script_parse_failure_yields_empty "let = ;" demo_features "SyntaxError" eq_refl).
Defined.

Lemma style_parse_failure_witness :
  postcss_parse "a { color: red" = Throw "CssSyntaxError"
  ∧ detectFeaturesInCSS "a { color: red" demo_features = Throw "CssSyntaxError"
  ∧ detectFeaturesInCSS "a { color: red" demo_features ≠ Ok [].
Proof.
  split; [reflexivity|].
  exact (style_parse_failure_propagates "a { color: red" demo_features
           "CssSyntaxError" eq_refl).
Defined.

(** The rule a:has(b): the entry named "has" is detected; the rule a:hover:
    nothing is, the catalog having no entry named "hover". *)
Lemma style_detection_witness :
  postcss_parse "a:has(b) { color: red }" = Ok [{| selector := "a:has(b)" |}]
  ∧ Forall2 (fun rule ps => processSync (selector rule) = Ok ps)
      [{| selector := "a:has(b)" |}] [[{| pseudo_value := ":has" |}]]
  ∧ detectFeaturesInCSS "a:has(b) { color: red }" demo_features
    = Ok [feature_of "has" "has" (VBool true)]
  ∧ detectFeaturesInCSS "a:hover { color: red }" demo_features = Ok []
  ∧ ∃ detected,
      detectFeaturesInCSS "a:has(b) { color: red }" demo_features = Ok detected
      ∧ NoDup detected
      ∧ (∀ f, f ∈ detected ↔
           ∃ p n token,
             p ∈ concat [[{| pseudo_value := ":has" |}]]
             ∧ pseudo_value p = string_of_list_ascii (replicate n ":"%char) +:+ token
             ∧ (∀ t, token ≠ String ":" t)
             ∧ JSMap.get (featureMap demo_features) (Some (toLowerCase token)) = Some f)
      ∧ (∀ f, f ∈ detected →
           f ∈ demo_features
           ∧ ∃ p n token,
               p ∈ concat [[{| pseudo_value := ":has" |}]]
               ∧ pseudo_value p = string_of_list_ascii (replicate n ":"%char) +:+ token
               ∧ (∀ t, token ≠ String ":" t)
               ∧ (toLowerCase <$> name f) = Some (toLowerCase token))
      ∧ (∀ p n token f,
           p ∈ concat [[{| pseudo_value := ":has" |}]] →
           pseudo_value p = string_of_list_ascii (replicate n ":"%char) +:+ token →
           (∀ t, token ≠ String ":" t) →
           f ∈ demo_features →
           (toLowerCase <$> name f) = Some (toLowerCase token) →
           ∃ f', f' ∈ detected ∧ (toLowerCase <$> name f') = (toLowerCase <$> name f))
      ∧ (∀ p f,
           p ∈ concat [[{| pseudo_value := ":has" |}]] → pseudo_value p = ":has" →
           f ∈ demo_features → name f = Some "has" →
           ∃ f', f' ∈ detected ∧ (toLowerCase <$> name f') = Some (toLowerCase "has"))
      ∧ ((∀ p n token f,
            p ∈ concat [[{| pseudo_value := ":has" |}]] →
            pseudo_value p = string_of_list_ascii (replicate n ":"%char) +:+ token →
            (∀ t, token ≠ String ":" t) →
            f ∈ demo_features →
            (toLowerCase <$> name f) ≠ Some (toLowerCase token)) →
         detected = []).
Proof.
  assert (Forall2 (fun rule ps => processSync (selector rule) = Ok ps)
            [{| selector := "a:has(b)" |}] [[{| pseudo_value := ":has" |}]]) as Hall
    by (repeat constructor).
  split; [reflexivity|]. split; [exact Hall|].
  split; [reflexivity|]. split; [reflexivity|].
  exact (style_detection_by_pseudo_name "a:has(b) { color: red }" demo_features
           [{| selector := "a:has(b)" |}] [[{| pseudo_value := ":has" |}]]
           eq_refl Hall).
Defined.

Lemma critical_entries_witness :
  let r := {| r_id := Some "fetch-api"; r_name := Some "Fetch";
              r_baseline := VBool true; r_files := ["a.js"] |} in
  (∀ r0, r0 ∈ [r] → (toLowerCase <$> r_id r0) = r_id r0)
  ∧ (∀ r0, r0 ∈ criticalDetected [r] ["Fetch-API"] ↔
           r0 ∈ [r]
           ∧ ∃ c, c ∈ ["Fetch-API"] ∧ (toLowerCase <$> r_id r0) = Some (toLowerCase c))
  ∧ (∀ r0, r0 ∈ [r] →
           (∃ c, c ∈ ["Fetch-API"] ∧ (toLowerCase <$> r_id r0) = Some (toLowerCase c)) →
           ok true [r] ["Fetch-API"] = false).
Proof.
  intros r.
  assert (∀ r0, r0 ∈ [r] → (toLowerCase <$> r_id r0) = r_id r0) as Hlow.
  { intros r0 Hr0. apply list_elem_of_singleton in Hr0 as ->. reflexivity. }
  split; [exact Hlow|].
  exact (critical_entries_case_insensitive [r] ["Fetch-API"] Hlow).
Defined.

Example critical_with_true_baseline :
  criticalDetected
    [{| r_id := Some "fetch-api"; r_name := Some "Fetch";
        r_baseline := VBool true; r_files := ["a.js"] |}] ["Fetch-API"]
  = [{| r_id := Some "fetch-api"; r_name := Some "Fetch";
        r_baseline := VBool true; r_files := ["a.js"] |}]
  ∧ ok true
      [{| r_id := Some "fetch-api"; r_name := Some "Fetch";
          r_baseline := VBool true; r_files := ["a.js"] |}] ["Fetch-API"]
    = false.
Proof. split; reflexivity. Qed.

Example run_skips_bad_files :
  v_details <$> (match run default_patterns "/w" true [] with
                 | Ok v => Some v
                 | Throw _ => None
                 end)
  = Some [{| r_id := Some "Foo"; r_name := Some "fetch";
             r_baseline := VBool true; r_files := ["a.js"] |};
          {| r_id := Some "has"; r_name := Some "has";
             r_baseline := VBool true; r_files := ["b.css"] |}].
Proof. reflexivity. Qed.

Example run_without_patterns :
  run [] "/w" true []
  = Ok {| v_ok := true; v_details := []; v_criticalDetected := [] |}.
Proof. reflexivity. Qed.
End demo.

(** * Further properties *)

(** ** Tables built from pairs *)

Section of_entries_facts.
Context {K V : Type} `{EqDecision K}.
Implicit Types (m : JSMap.t K V) (pairs : list (K * V)) (k : K).

Lemma of_entries_snoc pairs p :
  JSMap.of_entries (pairs ++ [p]) = JSMap.set (JSMap.of_entries pairs) p.1 p.2.
Proof. unfold JSMap.of_entries. by rewrite fold_left_app. Qed.

Lemma keys_of_entries pairs : JSMap.keys (JSMap.of_entries pairs) = first_seen pairs.*1.
Proof.
  induction pairs as [|[k v] pairs IH] using rev_ind; [done|].
  rewrite of_entries_snoc, keys_set, IH, fmap_app.
  change ([(k, v)].*1) with [k]. rewrite first_seen_snoc. simpl.
  destruct (decide (k ∈ first_seen pairs.*1)) as [Hin|Hin];
    destruct (decide (k ∈ pairs.*1)) as [Hin'|Hin']; try done.
  - exfalso. apply Hin'. by apply elem_of_first_seen.
  - exfalso. apply Hin. by apply elem_of_first_seen.
Qed.

Lemma get_of_entries pairs k :
  JSMap.get (JSMap.of_entries pairs) k = snd <$> last (filter (fun p => p.1 = k) pairs).
Proof.
  induction pairs as [|[k' v] pairs IH] using rev_ind; [done|].
  rewrite of_entries_snoc, filter_app. simpl.
  destruct (decide (k' = k)) as [->|Hne].
  - rewrite get_set_eq, filter_cons_True by done. by rewrite filter_nil, last_snoc.
  - rewrite get_set_ne, filter_cons_False by done. by rewrite filter_nil, app_nil_r.
Qed.

Lemma set_fresh m k (v : V) : k ∉ JSMap.keys m → JSMap.set m k v = m ++ [(k, v)].
Proof.
  unfold JSMap.keys. induction m as [|[k' v'] m IH]; simpl; [done|].
  rewrite not_elem_of_cons. intros [Hne Hk]. rewrite decide_False by done.
  by rewrite IH.
Qed.

Lemma fold_set_fresh pairs m :
  NoDup (m ++ pairs).*1 →
  fold_left (fun m p => JSMap.set m p.1 p.2) pairs m = m ++ pairs.
Proof.
  revert m. induction pairs as [|[k v] pairs IH]; intros m Hnd; simpl.
  - by rewrite app_nil_r.
  - rewrite set_fresh.
    + rewrite IH; rewrite <- app_assoc; done.
    + rewrite fmap_app in Hnd. apply NoDup_app in Hnd as (_ & Hdis & _).
      intros Hk. apply (Hdis k Hk). apply list_elem_of_here.
Qed.

Lemma of_entries_NoDup pairs : NoDup pairs.*1 → JSMap.of_entries pairs = pairs.
Proof. intros Hnd. unfold JSMap.of_entries. by rewrite fold_set_fresh. Qed.
End of_entries_facts.

Section of_list_facts.
Context {A : Type} `{EqDecision A}.

Lemma of_list_snoc (xs : list A) x :
  JSSet.of_list (xs ++ [x]) = JSSet.add (JSSet.of_list xs) x.
Proof. unfold JSSet.of_list. by rewrite fold_left_app. Qed.

Lemma of_list_first_seen (xs : list A) : JSSet.of_list xs = first_seen xs.
Proof.
  induction xs as [|x xs IH] using rev_ind; [done|].
  rewrite of_list_snoc, first_seen_snoc, IH. unfold JSSet.add, JSSet.has.
  destruct (decide (x ∈ xs)) as [Hin|Hin].
  - rewrite bool_decide_eq_true_2; [done | by apply elem_of_first_seen].
  - rewrite bool_decide_eq_false_2; [done|]. by rewrite elem_of_first_seen.
Qed.
End of_list_facts.

Lemma length_first_seen {A} `{EqDecision A} (l : list A) :
  (length (first_seen l) ≤ length l)%nat.
Proof.
  induction l as [|x l IH]; simpl; [done|].
  pose proof (length_filter (fun y => y ≠ x) (first_seen l)). lia.
Qed.

Lemma truthy_string_spec s : truthy_string s = true ↔ s ≠ "".
Proof.
  unfold truthy_string. rewrite negb_true_iff. apply String.eqb_neq.
Qed.

(** ** The merged table as a whole *)

Section merged_table.
Context `{Host}.
Implicit Types (f g : Feature) (m : JSMap.t (option string) Feature).

Lemma merge_step_snoc s l f m :
  fold_left (merge_step s) (l ++ [f]) m = merge_step s (fold_left (merge_step s) l m) f.
Proof. by rewrite fold_left_app. Qed.

Lemma fold_merge_get s l m k :
  JSMap.get (fold_left (merge_step s) l m) k
  = match last (filter (fun f => kept s f = true ∧ name_key f = k) l) with
    | Some f => Some f
    | None => JSMap.get m k
    end.
Proof.
  induction l as [|f l IH] using rev_ind; [done|].
  rewrite merge_step_snoc, filter_app. unfold merge_step at 1.
  destruct (kept s f) eqn:Hk.
  - destruct (decide (name_key f = k)) as [<-|Hne].
    + rewrite get_set_eq, filter_cons_True by done. by rewrite filter_nil, last_snoc.
    + rewrite get_set_ne by done.
      rewrite filter_cons_False by (by intros [_ ?]).
      by rewrite filter_nil, app_nil_r.
  - rewrite filter_cons_False by (intros [? _]; congruence).
    by rewrite filter_nil, app_nil_r.
Qed.

Lemma fold_merge_keys s l :
  JSMap.keys (fold_left (merge_step s) l JSMap.empty)
  = first_seen (name_key <$> filter (fun f => kept s f = true) l).
Proof.
  induction l as [|f l IH] using rev_ind; [done|].
  rewrite merge_step_snoc, filter_app. unfold merge_step at 1.
  destruct (kept s f) eqn:Hk.
  - rewrite filter_cons_True by done. rewrite filter_nil, fmap_app.
    change (name_key <$> [f]) with [name_key f].
    rewrite keys_set, first_seen_snoc, IH.
    destruct (decide (name_key f
                      ∈ first_seen (name_key <$> filter (fun f => kept s f = true) l)))
      as [Hin|Hin];
      destruct (decide (name_key f ∈ name_key <$> filter (fun f => kept s f = true) l))
        as [Hin'|Hin']; try done.
    + exfalso. apply Hin'. by apply elem_of_first_seen.
    + exfalso. apply Hin. by apply elem_of_first_seen.
  - rewrite filter_cons_False by congruence. by rewrite filter_nil, app_nil_r.
Qed.

(** X1.  What the merged table holds under a key is the last feature, in
    the order bundled then local, that has this lower-cased name and passes
    the ignore test; when there is none the key is absent. *)
Theorem merged_lookup (defaultFeatures localOverrides : list Feature)
    (baselineIgnore : list string) (k : option string) :
  JSMap.get (merged defaultFeatures localOverrides baselineIgnore) k
  = last (filter (fun f => kept baselineIgnore f = true ∧ name_key f = k)
                 (defaultFeatures ++ localOverrides)).
Proof.
  rewrite merged_fold, fold_merge_get.
  by destruct (last (filter _ (defaultFeatures ++ localOverrides))).
Qed.

(** X2.  The merged table has one entry per lower-cased name; its keys are
    the lower-cased names of the features that pass the ignore test, in the
    order in which they first occur (bundled, then local); so it has no more
    entries than there are features. *)
Theorem merged_keys (defaultFeatures localOverrides : list Feature)
    (baselineIgnore : list string) :
  JSMap.keys (merged defaultFeatures localOverrides baselineIgnore)
  = first_seen (name_key <$> filter (fun f => kept baselineIgnore f = true)
                                    (defaultFeatures ++ localOverrides))
  ∧ NoDup (JSMap.keys (merged defaultFeatures localOverrides baselineIgnore))
  ∧ (length (JSMap.values (merged defaultFeatures localOverrides baselineIgnore))
     ≤ length defaultFeatures + length localOverrides)%nat.
Proof.
  assert (JSMap.keys (merged defaultFeatures localOverrides baselineIgnore)
          = first_seen (name_key <$> filter (fun f => kept baselineIgnore f = true)
                                            (defaultFeatures ++ localOverrides))) as Hkeys
    by (rewrite merged_fold; apply fold_merge_keys).
  split; [done|]. split.
  - rewrite Hkeys. apply NoDup_first_seen.
  - unfold JSMap.values. rewrite length_fmap.
    rewrite <- (length_fmap fst). fold (JSMap.keys (merged defaultFeatures localOverrides baselineIgnore)).
    rewrite Hkeys.
    pose proof (length_first_seen
                  (name_key <$> filter (fun f => kept baselineIgnore f = true)
                                       (defaultFeatures ++ localOverrides))) as Hle.
    rewrite length_fmap in Hle.
    pose proof (length_filter (fun f => kept baselineIgnore f = true)
                  (defaultFeatures ++ localOverrides)) as Hle'.
    rewrite length_app in Hle'. lia.
Qed.

(** X3.  The table a detector builds from the features of the merged table
    is the merged table itself: same keys, same features, same order. *)
Theorem featureMap_merged (defaultFeatures localOverrides : list Feature)
    (baselineIgnore : list string) :
  featureMap (JSMap.values (merged defaultFeatures localOverrides baselineIgnore))
  = merged defaultFeatures localOverrides baselineIgnore.
Proof.
  pose proof (well_keyed_merged defaultFeatures localOverrides baselineIgnore) as Hwk.
  assert (NoDup (JSMap.keys (merged defaultFeatures localOverrides baselineIgnore))) as Hnd.
  { rewrite merged_fold, fold_merge_keys. apply NoDup_first_seen. }
  set (m := merged defaultFeatures localOverrides baselineIgnore) in *.
  unfold featureMap, JSMap.values.
  assert ((fun f => (name_key f, f)) <$> m.*2 = m) as ->.
  { rewrite <- list_fmap_compose. rewrite <- (list_fmap_id m) at 2.
    apply Forall_fmap_ext. unfold well_keyed in Hwk.
    eapply Forall_impl; [exact Hwk|]. intros [k v] [Hk _]. simpl in *. by rewrite Hk. }
  by apply of_entries_NoDup.
Qed.
End merged_table.

(** ** What the normalizer and the loaders hand over *)

Lemma replace_spaces_from_no_space b s :
  Forall (fun c => is_space c = false) (list_ascii_of_string (replace_spaces_from b s)).
Proof.
  revert b. induction s as [|c s IH]; intros b; simpl; [constructor|].
  destruct (is_space c) eqn:Hc.
  - destruct b; [apply IH|]. simpl. constructor; [reflexivity | apply IH].
  - simpl. constructor; [done | apply IH].
Qed.

Section handed_over.
Context `{Host}.

(** X4.  In the sequence shape there is one feature per record, in order,
    with the record's name.  Its id is the explicit id of the record when the
    record has one; otherwise, when the name is not empty, it is the
    lower-cased name with every run of white space replaced by one hyphen,
    and then contains no white space; otherwise the feature has no id. *)
Theorem normalized_ids (items : list raw_feature) :
  Forall2
    (fun f g =>
       name g = raw_name f
       ∧ (∀ i, raw_id f = Some i → id g = Some i)
       ∧ (∀ n, raw_id f = None → raw_name f = Some n → n ≠ "" →
            id g = Some (replace_spaces (toLowerCase n))
            ∧ Forall (fun c => is_space c = false)
                (list_ascii_of_string (replace_spaces (toLowerCase n))))
       ∧ (raw_id f = None → raw_name f = None ∨ raw_name f = Some "" → id g = None))
    items (normalizeFeatures (RawArray items)).
Proof.
  simpl. induction items as [|f items IH]; [constructor|].
  rewrite fmap_cons. constructor; [|exact IH]. simpl.
  split; [done|]. split; [|split].
  - intros i Hi. by rewrite Hi.
  - intros n Hi Hn Hne. rewrite Hi, Hn.
    apply truthy_string_spec in Hne. rewrite Hne.
    split; [done | apply replace_spaces_from_no_space].
  - intros Hi [Hn|Hn]; rewrite Hi, Hn; done.
Qed.

(** X5.  Whatever the shape, a normalized feature's baseline and description
    are never [undefined] or [null]; in the keyed shape the id is the key and
    the name is always there; and in the sequence shape the baseline is the
    record's baseline, else its status, else [false]. *)
Theorem normalized_fields_defined (raw : raw_catalog) :
  (∀ g, g ∈ normalizeFeatures raw →
        nullish (baseline g) = false ∧ nullish (description g) = false)
  ∧ (∀ entries g, raw = RawObject entries → g ∈ normalizeFeatures raw →
        ∃ i data, (i, data) ∈ entries ∧ id g = Some i
                  ∧ name g = Some (default i (raw_name data)))
  ∧ (∀ items, raw = RawArray items →
        baseline <$> normalizeFeatures raw
        = (fun f => if nullish (raw_baseline f)
                    then (if nullish (raw_status f) then VBool false else raw_status f)
                    else raw_baseline f) <$> items).
Proof.
  split; [|split].
  - intros g Hg. destruct raw as [|items|entries]; simpl in Hg.
    + by apply elem_of_nil in Hg.
    + apply list_elem_of_fmap in Hg as (f & -> & _). simpl. unfold coalesce.
      split.
      * destruct (nullish (raw_baseline f)) eqn:Hb; simpl.
        -- by destruct (nullish (raw_status f)) eqn:Hs.
        -- by rewrite Hb.
      * by destruct (nullish (raw_description f)) eqn:Hd.
    + apply list_elem_of_fmap in Hg as ([i data] & -> & _). simpl. unfold coalesce.
      split.
      * by destruct (nullish (raw_baseline data)) eqn:Hb.
      * by destruct (nullish (raw_description data)) eqn:Hd.
  - intros entries g -> Hg. simpl in Hg.
    apply list_elem_of_fmap in Hg as ([i data] & -> & Hin). by exists i, data.
  - intros items ->. apply normalize_array_baseline.
Qed.

(** X6.  [loadBaselineIgnore] never throws.  Without a readable ignore
    file the set is empty; otherwise its elements are exactly the non-empty
    strings got from a line by trimming and lower-casing it, each of them
    once. *)
Theorem ignore_set_tokens (cwd : string) :
  ∃ s : list string,
    loadBaselineIgnore cwd = Ok s
    ∧ NoDup s
    ∧ ("" ∉ s)
    ∧ (∀ e, readFile (join cwd ".baselineignore") = Throw e → s = [])
    ∧ (∀ content, readFile (join cwd ".baselineignore") = Ok content →
         ∀ t, t ∈ s ↔
              t ≠ "" ∧ ∃ line, line ∈ split_lines content ∧ t = toLowerCase (trim line)).
Proof.
  unfold loadBaselineIgnore.
  destruct (readFile (join cwd ".baselineignore")) as [content|e]; simpl.
  - eexists. split; [reflexivity|]. rewrite of_list_first_seen.
    assert (∀ t, t ∈ first_seen
                     (filter (fun line => truthy_string line = true)
                        ((fun line => toLowerCase (trim line)) <$> split_lines content))
                ↔ t ≠ "" ∧ ∃ line, line ∈ split_lines content ∧ t = toLowerCase (trim line))
      as Hiff.
    { intros t. rewrite elem_of_first_seen, list_elem_of_filter, truthy_string_spec.
      rewrite list_elem_of_fmap. split.
      - intros [Ht (line & -> & Hl)]. split; [done|]. by exists line.
      - intros [Ht (line & Hl & ->)]. split; [done|]. by exists line. }
    split; [apply NoDup_first_seen|]. split; [|split].
    + intros Hin. by apply Hiff in Hin as [? _].
    + intros e He. discriminate.
    + intros c Hc. injection Hc as <-. exact Hiff.
  - exists []. split; [reflexivity|]. split; [constructor|]. split; [apply not_elem_of_nil|].
    split; [done|]. intros c Hc. discriminate.
Qed.
End handed_over.

(** ** The script detector on a parsed script *)

Lemma node_induction (P : node → Prop) :
  (∀ x, P (Identifier x)) →
  (∀ object property, P object → P property → P (MemberExpression object property)) →
  (∀ children, Forall P children → P (Other children)) →
  ∀ n, P n.
Proof.
  intros HI HM HO. fix IH 1. intros [x|object property|children].
  - apply HI.
  - apply HM; apply IH.
  - apply HO. induction children as [|c children IHc]; constructor; [apply IH | exact IHc].
Qed.

Section script_detector.
Context `{Host}.
Implicit Types (fm : JSMap.t (option string) Feature) (used : JSSet.t Feature).

Lemma probe_idem fm k used : probe fm k (probe fm k used) = probe fm k used.
Proof.
  unfold probe. destruct (JSMap.get fm k) as [f|]; [|done].
  apply add_elem_of. apply elem_of_add. by right.
Qed.

(** The visitor of a member expression adds nothing that the visit of its
    object does not add. *)
Lemma member_visit_absorbed fm object property used :
  traverse fm object (visit_MemberExpression fm (MemberExpression object property) used)
  = traverse fm object used.
Proof.
  destruct object as [x| |]; try done. simpl.
  unfold visit_MemberExpression, visit_Identifier. simpl.
  destruct (truthy_string (toLowerCase x)); [apply probe_idem | done].
Qed.

Lemma traverse_identifiers fm n :
  ∀ used, traverse fm n used
          = fold_left (fun u x => visit_Identifier fm x u) (identifiers n) used.
Proof.
  induction n as [x|object property IHo IHp|children IHc] using node_induction;
    intros used.
  - done.
  - change (traverse fm (MemberExpression object property) used)
      with (traverse fm property
              (traverse fm object
                 (visit_MemberExpression fm (MemberExpression object property) used))).
    rewrite member_visit_absorbed, IHp, IHo. simpl. by rewrite fold_left_app.
  - change (traverse fm (Other children) used)
      with (fold_left (fun u c => traverse fm c u) children used).
    revert used. induction IHc as [|c children Hc _ IH]; intros used; simpl; [done|].
    by rewrite fold_left_app, <- Hc, IH.
Qed.

Lemma elem_of_visit_Identifiers fm xs used f :
  f ∈ fold_left (fun u x => visit_Identifier fm x u) xs used ↔
  f ∈ used ∨ ∃ x, x ∈ xs ∧ JSMap.get fm (Some (toLowerCase x)) = Some f.
Proof.
  revert used. induction xs as [|x xs IH]; intros used; simpl.
  - split; [by left | intros [?|(x & Hx & _)]; [done | by apply elem_of_nil in Hx]].
  - rewrite IH. unfold visit_Identifier at 1. rewrite elem_of_probe. split.
    + intros [[?|Hg]|(y & Hy & Hg)]; [by left | right; exists x | right; exists y].
      * split; [apply list_elem_of_here | done].
      * split; [by apply list_elem_of_further | done].
    + intros [?|(y & Hy & Hg)]; [by left; left|].
      apply elem_of_cons in Hy as [->|Hy]; [left; by right | right; by exists y].
Qed.

Lemma NoDup_visit_Identifiers fm xs used :
  NoDup used → NoDup (fold_left (fun u x => visit_Identifier fm x u) xs used).
Proof.
  revert used. induction xs as [|x xs IH]; intros used Hnd; simpl; [done|].
  apply IH. by apply NoDup_probe.
Qed.

(** X7.  On a script that parses, the detected features are exactly the
    table's bindings of the lower-cased names of the identifier nodes, each
    once; the visitor of member expressions adds nothing to them.  So a
    detected feature is a catalog feature whose lower-cased name is that of
    an identifier, and an identifier whose lower-cased name is that of some
    catalog feature yields a detection under that name. *)
Theorem script_detection_by_identifier (content : string) (features : list Feature)
    (ast : node) :
  parse content = Ok ast →
  ∃ detected,
    detectFeaturesInJS content features = Ok detected
    ∧ NoDup detected
    ∧ (∀ f, f ∈ detected ↔
         ∃ x, x ∈ identifiers ast
              ∧ JSMap.get (featureMap features) (Some (toLowerCase x)) = Some f)
    ∧ (∀ f, f ∈ detected →
         f ∈ features
         ∧ ∃ x, x ∈ identifiers ast ∧ (toLowerCase <$> name f) = Some (toLowerCase x))
    ∧ (∀ x f, x ∈ identifiers ast → f ∈ features →
         (toLowerCase <$> name f) = Some (toLowerCase x) →
         ∃ f', f' ∈ detected ∧ (toLowerCase <$> name f') = (toLowerCase <$> name f)).
Proof.
  intros Hp. eexists. unfold detectFeaturesInJS. rewrite Hp.
  split; [reflexivity|]. unfold JSSet.to_list. rewrite traverse_identifiers.
  assert (∀ f, f ∈ fold_left (fun u x => visit_Identifier (featureMap features) x u)
                     (identifiers ast) JSSet.empty ↔
            ∃ x, x ∈ identifiers ast
                 ∧ JSMap.get (featureMap features) (Some (toLowerCase x)) = Some f) as Hiff.
  { intros f. rewrite elem_of_visit_Identifiers. split; [|by right].
    intros [Hin|?]; [by apply elem_of_nil in Hin | done]. }
  split; [|split; [|split]].
  - apply NoDup_visit_Identifiers. constructor.
  - exact Hiff.
  - intros f Hf. apply Hiff in Hf as (x & Hx & Hg).
    apply featureMap_get_Some in Hg as [Hin Hkey]. split; [done|]. by exists x.
  - intros x f Hx Hin Hname.
    destruct (featureMap_get_is_Some features f Hin) as [f' Hg].
    exists f'. split.
    + apply Hiff. exists x. split; [done|]. unfold name_key in Hg. by rewrite <- Hname.
    + by apply featureMap_get_Some in Hg as [_ Hkey].
Qed.

(** X8.  Detection in scripts does not see the case of identifiers: two
    scripts whose identifier nodes have, in order, the same lower-cased
    names give the same detections in the same order. *)
Theorem script_detection_ignores_case (content1 content2 : string)
    (features : list Feature) (ast1 ast2 : node) :
  parse content1 = Ok ast1 →
  parse content2 = Ok ast2 →
  toLowerCase <$> identifiers ast1 = toLowerCase <$> identifiers ast2 →
  detectFeaturesInJS content1 features = detectFeaturesInJS content2 features.
Proof.
  intros Hp1 Hp2 Hids. unfold detectFeaturesInJS. rewrite Hp1, Hp2.
  rewrite !traverse_identifiers. unfold visit_Identifier.
  assert (∀ xs used,
            fold_left (fun u x => probe (featureMap features) (Some (toLowerCase x)) u) xs used
            = fold_left (fun u k => probe (featureMap features) (Some k) u)
                        (toLowerCase <$> xs) used) as Hfold.
  { induction xs as [|x xs IH]; intros used; simpl; [done | apply IH]. }
  by rewrite !Hfold, Hids.
Qed.
End script_detector.

(** ** Selectors that do not parse, and what a detector can return *)

Lemma for_of_app {S X} (body : S → X → result S) (xs ys : list X) (s : S) :
  for_of body (xs ++ ys) s = (s' ← for_of body xs s; for_of body ys s').
Proof.
  revert s. induction xs as [|x xs IH]; intros s; simpl; [done|].
  destruct (body s x) as [s'|e]; simpl; [apply IH | done].
Qed.

Lemma strip_colons_no_colon s :
  match strip_colons s with
  | String c _ => c ≠ ":"%char
  | EmptyString => True
  end.
Proof.
  induction s as [|c s IH]; simpl; [done|].
  destruct (decide (c = ":"%char)) as [->|Hne]; [exact IH|].
  destruct c as [[] [] [] [] [] [] [] []]; try done.
Qed.

Section detector_results.
Context `{Host}.
Implicit Types (fm : JSMap.t (option string) Feature) (used : JSSet.t Feature).

Lemma visit_Rule_eq fm used rule :
  visit_Rule fm used rule
  = match processSync (selector rule) with
    | Ok ps => Ok (fold_left (visit_Pseudo fm) ps used)
    | Throw e => Throw e
    end.
Proof. unfold visit_Rule. by destruct (processSync (selector rule)). Qed.

(** X9.  When the selector of some rule does not parse, and the selectors of
    the rules before it do, [detectFeaturesInCSS] throws what the selector
    parser threw: the detections made in the earlier rules are not
    returned. *)
Theorem selector_failure_propagates (content : string) (features : list Feature)
    (before after : list Rule) (rule : Rule) (pseudos : list (list Pseudo)) (e : exn) :
  postcss_parse content = Ok (before ++ rule :: after) →
  Forall2 (fun rule ps => processSync (selector rule) = Ok ps) before pseudos →
  processSync (selector rule) = Throw e →
  detectFeaturesInCSS content features = Throw e.
Proof.
  intros Hroot Hbefore Hrule. unfold detectFeaturesInCSS. rewrite Hroot. simpl.
  rewrite for_of_app, (walkRules_ok _ _ _ _ Hbefore). simpl.
  by rewrite visit_Rule_eq, Hrule.
Qed.

Lemma probe_sound fm k used (features : list Feature) :
  (∀ k f, JSMap.get fm k = Some f → f ∈ features) →
  (∀ f, f ∈ used → f ∈ features) →
  ∀ f, f ∈ probe fm k used → f ∈ features.
Proof.
  intros Hfm Hused f Hf. apply elem_of_probe in Hf as [?|Hg]; eauto.
Qed.

Lemma walkRules_sound fm (root : list Rule) used used' (features : list Feature) :
  (∀ k f, JSMap.get fm k = Some f → f ∈ features) →
  for_of (visit_Rule fm) root used = Ok used' →
  NoDup used → (∀ f, f ∈ used → f ∈ features) →
  NoDup used' ∧ ∀ f, f ∈ used' → f ∈ features.
Proof.
  intros Hfm. revert used. induction root as [|rule root IH]; intros used; simpl.
  - intros Hok Hnd Hused. by injection Hok as <-.
  - rewrite visit_Rule_eq. destruct (processSync (selector rule)) as [ps|e]; simpl; [|done].
    intros Hok Hnd Hused. apply (IH _ Hok).
    + by apply NoDup_visit_Pseudos.
    + intros f Hf. apply elem_of_visit_Pseudos in Hf as [?|(p & _ & Hg)]; eauto.
Qed.

Lemma detect_sound (file content : string) (features detected : list Feature) :
  detect file content features = Ok detected →
  NoDup detected ∧ ∀ f, f ∈ detected → f ∈ features.
Proof.
  assert (∀ k f, JSMap.get (featureMap features) k = Some f → f ∈ features) as Hfm
    by (intros k f Hg; by apply featureMap_get_Some in Hg as [? _]).
  unfold detect. destruct (is_script file).
  - unfold detectFeaturesInJS. destruct (parse content) as [ast|e].
    + intros Hok. injection Hok as <-. unfold JSSet.to_list.
      rewrite traverse_identifiers. split.
      * apply NoDup_visit_Identifiers. constructor.
      * intros f Hf. apply elem_of_visit_Identifiers in Hf as [Hin|(x & _ & Hg)]; eauto.
        by apply elem_of_nil in Hin.
    + intros Hok. injection Hok as <-. split; [constructor|].
      intros f Hf. by apply elem_of_nil in Hf.
  - destruct (endsWith file ".css").
    + unfold detectFeaturesInCSS. destruct (postcss_parse content) as [root|e]; simpl; [|done].
      destruct (for_of (visit_Rule (featureMap features)) root JSSet.empty)
        as [used|e] eqn:Hwalk; simpl; [|done].
      intros Hok. injection Hok as <-. unfold JSSet.to_list.
      apply (walkRules_sound _ _ _ _ _ Hfm Hwalk); [constructor|].
      intros f Hf. by apply elem_of_nil in Hf.
    + intros Hok. injection Hok as <-. split; [constructor|].
      intros f Hf. by apply elem_of_nil in Hf.
Qed.

(** X10.  Whatever one of the two detectors returns, it is a sequence
    without repetition of features taken from the sequence it was given. *)
Theorem detected_from_features (content : string) (features detected : list Feature) :
  detectFeaturesInJS content features = Ok detected
  ∨ detectFeaturesInCSS content features = Ok detected →
  NoDup detected ∧ ∀ f, f ∈ detected → f ∈ features.
Proof.
  intros [Hjs|Hcss].
  - by apply (detect_sound "a.js" content).
  - by apply (detect_sound "a.css" content).
Qed.
End detector_results.

(** ** The entries of the report *)

Lemma filter_none {A} (P : A → Prop) `{∀ x, Decision (P x)} (l : list A) :
  (∀ x, x ∈ l → ¬ P x) → filter P l = [].
Proof.
  induction l as [|x l IH]; intros Hl; [done|].
  rewrite filter_cons_False by (apply Hl, list_elem_of_here).
  apply IH. intros y Hy. apply Hl. by apply list_elem_of_further.
Qed.

Section report_entries.
Implicit Types (report : JSMap.t (option string) entry).

(** The entry of an id keeps the feature of the first detection with that
    id, and lists the files of the detections with that id in the order in
    which they were first seen. *)
Lemma get_report_of_first l i e :
  JSMap.get (report_of l) i = Some e →
  (∃ l1 file l2, l = l1 ++ (file, feature e) :: l2
                 ∧ id (feature e) = i
                 ∧ ∀ hit, hit ∈ l1 → id hit.2 ≠ i)
  ∧ files e = first_seen (fst <$> filter (fun hit => id hit.2 = i) l).
Proof.
  revert i e. induction l as [|[file0 f0] l IH] using rev_ind; intros i e; [done|].
  rewrite report_of_snoc, filter_app, fmap_app. unfold record.
  destruct (decide (id f0 = i)) as [<-|Hne].
  - rewrite get_set_eq. intros He. injection He as <-. simpl.
    rewrite filter_cons_True by done. rewrite filter_nil.
    change (fst <$> [(file0, f0)]) with [file0]. rewrite first_seen_snoc.
    destruct (JSMap.get (report_of l) (id f0)) as [e1|] eqn:Hg1; simpl.
    + destruct (IH _ _ Hg1) as [(l1 & file & l2 & -> & Hid & Hl1) Hfiles]. split.
      * exists l1, file, (l2 ++ [(file0, f0)]). by rewrite <- app_assoc.
      * rewrite Hfiles. unfold JSSet.add, JSSet.has.
        set (fs := fst <$> filter (fun hit => id hit.2 = id f0)
                                  (l1 ++ (file, feature e1) :: l2)).
        destruct (decide (file0 ∈ fs)) as [Hin|Hin].
        -- rewrite bool_decide_eq_true_2; [done | by apply elem_of_first_seen].
        -- rewrite bool_decide_eq_false_2; [done | by rewrite elem_of_first_seen].
    + pose proof (get_report_of_None _ _ Hg1) as Hnone. split.
      * exists l, file0, []. repeat split; try done.
        intros [file f] Hin. simpl. by eapply Hnone.
      * assert (filter (fun hit : string * Feature => id hit.2 = id f0) l = []) as ->.
        { apply filter_none. intros [file f] Hin. simpl. by eapply Hnone. }
        simpl. destruct (decide (file0 ∈ [])) as [Hin|_]; [by apply elem_of_nil in Hin | done].
  - rewrite get_set_ne by done. intros Hg.
    rewrite filter_cons_False by done. rewrite filter_nil, app_nil_r.
    destruct (IH _ _ Hg) as [(l1 & file & l2 & -> & Hid & Hl1) Hfiles]. split; [|done].
    exists l1, file, (l2 ++ [(file0, f0)]). by rewrite <- app_assoc.
Qed.

(** X11.  When several detected features have the same id, the entry of that
    id keeps the first of them, so the name and the baseline reported are
    those of the first one seen; and the files of the entry are in the order
    in which they were first seen with that id. *)
Theorem entry_keeps_first_feature (stream : list (string * list Feature))
    (i : option string) (e : entry) :
  JSMap.get (aggregate stream) i = Some e →
  (∃ l1 file l2, hits stream = l1 ++ (file, feature e) :: l2
                 ∧ id (feature e) = i
                 ∧ ∀ hit, hit ∈ l1 → id hit.2 ≠ i)
  ∧ files e = first_seen (fst <$> filter (fun hit => id hit.2 = i) (hits stream)).
Proof. rewrite aggregate_hits. apply get_report_of_first. Qed.
End report_entries.

(** ** The loop and [run] as a whole *)

Section whole_run.
Context `{Host}.
Implicit Types (report : JSMap.t (option string) entry).

Lemma elem_of_stream_of cwd features files file detected :
  (file, detected) ∈ stream_of cwd features files →
  file ∈ files ∧ ∃ content, detect file content features = Ok detected.
Proof.
  unfold stream_of. rewrite list_elem_of_omap. intros (file' & Hin & Hd).
  unfold detected_in in Hd.
  destruct (readFile (join cwd file')) as [content|e]; simpl in Hd; [|done].
  destruct (detect file' content features) as [d|e] eqn:Hdet; [|done].
  injection Hd as <- <-. split; [done|]. by exists content.
Qed.

Lemma scan_results_sound (cwd : string) (features : list Feature)
    (listing : list string) :
  ∃ report,
    scan cwd features listing = Ok report
    ∧ (∀ i e, JSMap.get report i = Some e →
         id (feature e) = i ∧ feature e ∈ features
         ∧ files e ≠ [] ∧ ∀ file, file ∈ files e → file ∈ listing)
    ∧ (∀ r, r ∈ results report →
         r_files r ≠ [] ∧ NoDup (r_files r)
         ∧ (∀ file, file ∈ r_files r → file ∈ listing)
         ∧ ∃ f, f ∈ features ∧ id f = r_id r ∧ name f = r_name r
                ∧ baseline f = r_baseline r).
Proof.
  exists (aggregate (stream_of cwd features listing)).
  split; [apply scan_aggregate|].
  assert (∀ i e, JSMap.get (aggregate (stream_of cwd features listing)) i = Some e →
            id (feature e) = i ∧ feature e ∈ features
            ∧ files e ≠ [] ∧ ∀ file, file ∈ files e → file ∈ listing)
    as Hentries.
  { intros i e. rewrite aggregate_hits. intros Hg.
    destruct (get_report_of_first _ _ _ Hg) as [(l1 & file & l2 & Hl & Hid & _) _].
    destruct (get_report_of _ _ _ Hg) as [_ Hfiles].
    assert ((file, feature e) ∈ hits (stream_of cwd features listing)) as Hhit.
    { rewrite Hl. apply elem_of_app. right. apply list_elem_of_here. }
    split; [done|]. split; [|split].
    - apply elem_of_hits in Hhit as (detected & Hs & Hf).
      apply elem_of_stream_of in Hs as [_ [content Hdet]].
      by apply (detect_sound _ _ _ _ Hdet).
    - intros Hnil. assert (file ∈ files e) as Hin
        by (apply Hfiles; by exists (feature e)).
      rewrite Hnil in Hin. by apply elem_of_nil in Hin.
    - intros file' Hin. apply Hfiles in Hin as (f & Hhit' & _).
      apply elem_of_hits in Hhit' as (detected & Hs & _).
      by apply elem_of_stream_of in Hs as [? _]. }
  split; [exact Hentries|].
  intros r Hr. unfold results, JSMap.entries in Hr.
  apply list_elem_of_fmap in Hr as ([i e] & -> & Hin). simpl.
  assert (JSMap.get (aggregate (stream_of cwd features listing)) i = Some e) as Hg.
  { apply elem_of_get_Some; [|done]. rewrite aggregate_hits, keys_report_of.
    apply NoDup_first_seen. }
  destruct (Hentries _ _ Hg) as (Hid & Hf & Hne & Hsub).
  rewrite aggregate_hits in Hg. destruct (get_report_of _ _ _ Hg) as [Hnd _].
  unfold JSSet.to_list. repeat split; try done. by exists (feature e).
Qed.

(** X12.  The loop never throws, and in its report every entry stands under
    the id of its feature, its feature is one of the features given to the
    scan, and its listing are a non-empty part of the listing; so every result
    carries the id, name and baseline of a feature of the catalog, and at
    least one file, all of them from the listing, none twice. *)
Theorem report_from_catalog_and_listing (cwd : string) (features : list Feature)
    (listing : list string) :
  ∃ report,
    scan cwd features listing = Ok report
    ∧ (∀ i e, JSMap.get report i = Some e →
         id (feature e) = i ∧ feature e ∈ features
         ∧ files e ≠ [] ∧ ∀ file, file ∈ files e → file ∈ listing)
    ∧ (∀ r, r ∈ results report →
         r_files r ≠ [] ∧ NoDup (r_files r)
         ∧ (∀ file, file ∈ r_files r → file ∈ listing)
         ∧ ∃ f, f ∈ features ∧ id f = r_id r ∧ name f = r_name r
                ∧ baseline f = r_baseline r).
Proof. apply scan_results_sound. Qed.

Lemma overrides_entries (entries : list (string * json_data)) :
  ((∃ n, (n, JNull) ∈ entries)
   ∧ map_result (fun '(name, data) => override name data) entries = Throw "TypeError")
  ∨ ∃ records : list (string * raw_feature),
      entries = (fun p => (p.1, JRecord p.2)) <$> records
      ∧ map_result (fun '(name, data) => override name data) entries
        = Ok ((fun p => {| id := Some (toLowerCase p.1);
                           name := Some p.1;
                           baseline := raw_baseline p.2 ?? VBool false;
                           description := raw_description p.2 ?? VString "" |})
              <$> records).
Proof.
  induction entries as [|[n [|r]] entries IH].
  - right. by exists [].
  - left. split; [|done]. exists n. apply list_elem_of_here.
  - destruct IH as [[(n' & Hin) Hthrow]|(records & -> & Hok)].
    + left. split; [exists n'; by apply list_elem_of_further|].
      simpl. simpl in Hthrow. by rewrite Hthrow.
    + right. exists ((n, r) :: records). split; [done|].
      simpl. simpl in Hok. by rewrite Hok.
Qed.

(** X18.  Building the local overrides throws, and then a [TypeError],
    exactly when baseline.json parsed to [null] or holds a [null] value;
    otherwise there is one override per entry, in order, whose id is the
    lower-cased key, whose name is the key, and whose baseline and
    description default to [false] and the empty string.  A baseline.json
    that cannot be read or parsed gives no override at all. *)
Theorem overrides_from_json (cwd : string) (baselineJson : json_doc) :
  (∀ e, localOverrides baselineJson = Throw e ↔
        e = "TypeError"
        ∧ (baselineJson = DocNull
           ∨ ∃ entries n, baselineJson = DocEntries entries ∧ (n, JNull) ∈ entries))
  ∧ (∀ overrides, localOverrides baselineJson = Ok overrides ↔
        ∃ records : list (string * raw_feature),
          baselineJson = of_records records
          ∧ overrides
            = (fun p => {| id := Some (toLowerCase p.1);
                           name := Some p.1;
                           baseline := raw_baseline p.2 ?? VBool false;
                           description := raw_description p.2 ?? VString "" |})
              <$> records)
  ∧ ((∃ e, readFile (join cwd "baseline.json") = Throw e)
     ∨ (∃ raw e, readFile (join cwd "baseline.json") = Ok raw ∧ JSON_parse raw = Throw e) →
     loadBaselineJson cwd = Ok (DocEntries [])
     ∧ localOverrides (DocEntries []) = Ok []).
Proof.
  split; [|split].
  - intros e. destruct baselineJson as [|entries]; unfold localOverrides; simpl.
    + split; [intros He; injection He as <-; split; [done | by left] | by intros [-> _]].
    + destruct (overrides_entries entries) as [[(n & Hin) ->]|(records & Hent & ->)].
      * split; [intros He; injection He as <- | by intros [-> _]].
        split; [done|]. right. by exists entries, n.
      * split; [done|]. intros [_ [?|(entries' & n & Heq & Hin)]]; [done|].
        injection Heq as <-. rewrite Hent in Hin.
        apply list_elem_of_fmap in Hin as (q & Hq & _). done.
  - intros overrides. destruct baselineJson as [|entries]; unfold localOverrides; simpl.
    + split; [done | intros (records & ? & _); done].
    + destruct (overrides_entries entries) as [[(n & Hin) ->]|(records & Hent & ->)].
      * split; [done|]. intros (records & Heq & _). injection Heq as ->.
        apply list_elem_of_fmap in Hin as (q & Hq & _). done.
      * split.
        -- intros Hok. injection Hok as <-. exists records. by rewrite Hent.
        -- intros (records' & Heq & ->). injection Heq as Heq. rewrite Hent in Heq.
           assert (records = records') as ->; [|done].
           clear -Heq. revert records' Heq.
           induction records as [|[n r] records IH]; intros [|[n' r'] records'] Heq;
             try done.
           rewrite !fmap_cons in Heq. injection Heq as -> -> Heq. f_equal. by apply IH.
  - intros Hfail. split; [|done]. unfold loadBaselineJson.
    destruct Hfail as [[e ->]|(raw & e & -> & Hparse)]; simpl; [done|].
    by rewrite Hparse.
Qed.

(** X13.  [run] throws exactly when building the overrides from
    baseline.json throws, or else when the file listing throws, and then it
    throws that same exception; a missing or broken ignore file, a missing or
    unparsable baseline.json, and whatever happens in a single file, never
    make it throw.  When it returns, the ids of the details are pairwise
    different and the verdict is the policy applied to these details. *)
Theorem run_throws_only_before_loop (patternsArr : list string) (cwd : string)
    (failOnLimited : bool) (criticalFeatures : list string) :
  ∃ baselineJson,
    loadBaselineJson cwd = Ok baselineJson
    ∧ (∀ e, run patternsArr cwd failOnLimited criticalFeatures = Throw e ↔
            localOverrides baselineJson = Throw e
            ∨ ((∃ overrides, localOverrides baselineJson = Ok overrides)
               ∧ fg patternsArr cwd = Throw e))
    ∧ (∀ v, run patternsArr cwd failOnLimited criticalFeatures = Ok v →
            NoDup (r_id <$> v_details v)
            ∧ v_ok v = ok failOnLimited (v_details v) criticalFeatures
            ∧ v_criticalDetected v = criticalDetected (v_details v) criticalFeatures).
Proof.
  destruct (run_resolved patternsArr cwd failOnLimited criticalFeatures)
    as (ignore & json & _ & Hjson & Hrun).
  exists json. split; [exact Hjson|]. rewrite Hrun.
  destruct (localOverrides json) as [overrides|e0].
  - destruct (fg patternsArr cwd) as [listing|e1]; split.
    + intros e. split; [done|]. intros [?|[_ ?]]; done.
    + intros v Hv. injection Hv as <-. simpl. split; [|done].
      unfold results, JSMap.entries. rewrite <- list_fmap_compose.
      assert ((r_id ∘ (fun '(i, e) =>
                 {| r_id := i; r_name := name (feature e);
                    r_baseline := baseline (feature e);
                    r_files := JSSet.to_list (files e) |}))
              <$> aggregate (stream_of cwd
                    (JSMap.values (merged (normalizeFeatures wfFeatures) overrides ignore))
                    listing)
              = JSMap.keys (aggregate (stream_of cwd
                    (JSMap.values (merged (normalizeFeatures wfFeatures) overrides ignore))
                    listing))) as ->.
      { apply list_fmap_ext. by intros _ [i e] _. }
      rewrite aggregate_hits, keys_report_of. apply NoDup_first_seen.
    + intros e. split.
      * intros He. injection He as ->. right. split; [by exists overrides | done].
      * intros [?|[_ He]]; [done|]. by injection He as ->.
    + intros v Hv. done.
  - split.
    + intros e. split.
      * intros He. injection He as ->. by left.
      * intros [He|[[overrides ?] _]]; [by injection He as -> | done].
    + intros v Hv. done.
Qed.

(** X17.  A feature that the ignore set excludes is never reported: in
    every detail that [run] returns, neither the id, taken as it is, nor the
    lower-cased name is an element of the loaded ignore set; and every
    detail carries the id, name and baseline of a feature of the merged
    table. *)
Theorem ignored_never_reported (patternsArr : list string) (cwd : string)
    (failOnLimited : bool) (criticalFeatures : list string) :
  ∃ (ignore : list string) json,
    loadBaselineIgnore cwd = Ok ignore
    ∧ loadBaselineJson cwd = Ok json
    ∧ ∀ v r, run patternsArr cwd failOnLimited criticalFeatures = Ok v →
             r ∈ v_details v →
             ∃ overrides,
               localOverrides json = Ok overrides
               ∧ (∀ i, r_id r = Some i → i ∉ ignore)
               ∧ (∀ n, r_name r = Some n → toLowerCase n ∉ ignore)
               ∧ ∃ f, f ∈ JSMap.values (merged (normalizeFeatures wfFeatures)
                                               overrides ignore)
                      ∧ id f = r_id r ∧ name f = r_name r ∧ baseline f = r_baseline r.
Proof.
  destruct (run_resolved patternsArr cwd failOnLimited criticalFeatures)
    as (ignore & json & Hignore & Hjson & Hrun).
  exists ignore, json. split; [done|]. split; [done|].
  intros v r Hv Hr. rewrite Hrun in Hv.
  destruct (localOverrides json) as [overrides|e]; [|done].
  destruct (fg patternsArr cwd) as [listing|e]; [|done].
  injection Hv as <-. simpl in Hr. exists overrides. split; [done|].
  set (features := JSMap.values (merged (normalizeFeatures wfFeatures)
                                        overrides ignore)) in *.
  destruct (scan_results_sound cwd features listing) as (report & Hscan & _ & Hres).
  rewrite scan_aggregate in Hscan. injection Hscan as <-.
  destruct (Hres r Hr) as (_ & _ & _ & f & Hf & Hid & Hname & Hbase).
  assert (kept ignore f = true) as Hkept.
  { pose proof (well_keyed_merged (normalizeFeatures wfFeatures) overrides ignore) as Hwk.
    unfold well_keyed in Hwk. rewrite Forall_forall in Hwk.
    unfold features, JSMap.values in Hf.
    apply list_elem_of_fmap in Hf as ([k g] & -> & Hin).
    by apply Hwk in Hin as [_ ?]. }
  assert (¬ ((∃ k, name_key f = Some k ∧ k ∈ ignore)
             ∨ (∃ i, id f = Some i ∧ i ∈ ignore))) as Hnot.
  { intros Hc. apply kept_false in Hc. congruence. }
  split; [|split].
  - intros i Hi Hin. apply Hnot. right. exists i. by rewrite Hid.
  - intros n Hn Hin. apply Hnot. left. exists (toLowerCase n).
    unfold name_key. by rewrite Hname, Hn.
  - by exists f.
Qed.

(** X14.  The command exits with 2 exactly when [run] throws, that is when
    building the overrides from baseline.json throws or the file listing
    throws; with 0 exactly when [run] returns an ok verdict; and with 1
    exactly when [run] returns, the input fail-on-limited is not the string
    false, and a result is unsafe or critical.  So with fail-on-limited set
    to false it never exits with 1. *)
Theorem cli_exit_code (getInput : string → string) (cwd : string) :
  let failOnLimited := cli_failOnLimited (getInput "fail-on-limited") in
  let criticalFeatures := cli_criticalFeatures (getInput "critical-features") in
  (cli getInput cwd = 2%Z ↔
     ∃ e, run default_patterns cwd failOnLimited criticalFeatures = Throw e)
  ∧ (∃ baselineJson,
       loadBaselineJson cwd = Ok baselineJson
       ∧ (cli getInput cwd = 2%Z ↔
            (∃ e, localOverrides baselineJson = Throw e)
            ∨ (∃ e, fg default_patterns cwd = Throw e)))
  ∧ (cli getInput cwd = 0%Z ↔
       ∃ v, run default_patterns cwd failOnLimited criticalFeatures = Ok v
            ∧ v_ok v = true)
  ∧ (cli getInput cwd = 1%Z ↔
       ∃ v, run default_patterns cwd failOnLimited criticalFeatures = Ok v
            ∧ getInput "fail-on-limited" ≠ "false"
            ∧ (unsafe (v_details v) ≠ []
               ∨ criticalDetected (v_details v) criticalFeatures ≠ [])).
Proof.
  intros failOnLimited criticalFeatures. unfold cli.
  fold failOnLimited criticalFeatures.
  destruct (run_resolved default_patterns cwd failOnLimited criticalFeatures)
    as (ignore & json & _ & Hjson & Hrun).
  rewrite Hrun.
  destruct (localOverrides json) as [overrides|e0] eqn:Hover.
  - destruct (fg default_patterns cwd) as [listing|e1] eqn:Hfg; simpl.
    + set (rs := results _).
      assert (ok failOnLimited rs criticalFeatures = false ↔
              getInput "fail-on-limited" ≠ "false"
              ∧ (unsafe rs ≠ [] ∨ criticalDetected rs criticalFeatures ≠ [])) as Hok.
      { unfold ok. rewrite negb_false_iff, andb_true_iff, orb_true_iff.
        unfold failOnLimited, cli_failOnLimited. rewrite negb_true_iff, String.eqb_neq.
        assert (∀ l : list Detail, (0 <? length l)%nat = true ↔ l ≠ []) as Hlen
          by (intros [|? ?]; simpl; split; intros ?; done).
        by rewrite !Hlen. }
      split; [|split; [|split]].
      * destruct (ok failOnLimited rs criticalFeatures);
          (split; [done | intros [e He]; done]).
      * exists json. split; [done|]. rewrite Hover.
        destruct (ok failOnLimited rs criticalFeatures);
          (split; [done | intros [[e He]|[e He]]; done]).
      * destruct (ok failOnLimited rs criticalFeatures) eqn:Hv.
        -- split; [intros _; by eexists | done].
        -- split; [done|]. intros (v & Hv' & Hokv). injection Hv' as <-.
           simpl in Hokv. congruence.
      * destruct (ok failOnLimited rs criticalFeatures) eqn:Hv.
        -- split; [done|]. intros (v & Hv' & Hcond). injection Hv' as <-.
           simpl in Hcond. apply Hok in Hcond. congruence.
        -- split; [|done]. intros _. eexists. split; [reflexivity|]. simpl.
           by apply Hok.
    + split; [|split; [|split]].
      * split; [intros _; by exists e1 | done].
      * exists json. split; [done|]. split; [intros _; right; by exists e1 | done].
      * split; [done | intros (v & Hv & _); done].
      * split; [done | intros (v & Hv & _); done].
  - split; [|split; [|split]].
    + split; [intros _; by exists e0 | done].
    + exists json. split; [done|]. rewrite Hover.
      split; [intros _; left; by exists e0 | done].
    + split; [done | intros (v & Hv & _); done].
    + split; [done | intros (v & Hv & _); done].
Qed.

(** X15.  A file that is neither a script nor a style sheet, and a script on
    which the parser throws, leave the report as it is. *)
Theorem skipped_files_leave_report (cwd : string) (features : list Feature)
    (report : JSMap.t (option string) entry) (file : string) :
  (is_script file = false ∧ endsWith file ".css" = false)
  ∨ (is_script file = true
     ∧ ∃ content e, readFile (join cwd file) = Ok content ∧ parse content = Throw e) →
  scan_step cwd features report file = Ok report.
Proof.
  intros Hcase. rewrite scan_step_spec. unfold detected_in, detect.
  destruct Hcase as [[Hjs Hcss]|(Hjs & content & e & Hread & Hparse)].
  - rewrite Hjs, Hcss. by destruct (readFile (join cwd file)).
  - rewrite Hjs, Hread. simpl. unfold detectFeaturesInJS. by rewrite Hparse.
Qed.
End whole_run.

(** ** Leading colons *)

(** X16.  [strip_colons] removes a run of colons at the start and nothing
    else: the string is some colons followed by the result, the result does
    not start with a colon, and stripping again changes nothing. *)
Theorem strip_colons_prefix (s : string) :
  (∃ n, s = string_of_list_ascii (replicate n ":"%char) +:+ strip_colons s)
  ∧ match strip_colons s with
    | String c _ => c ≠ ":"%char
    | EmptyString => True
    end
  ∧ strip_colons (strip_colons s) = strip_colons s.
Proof.
  split; [|split].
  - induction s as [|c s [n IH]]; [by exists 0|].
    destruct (decide (c = ":"%char)) as [->|Hne].
    + exists (S n).
      change (String ":" s
              = String ":" (string_of_list_ascii (replicate n ":"%char) +:+ strip_colons s)).
      f_equal. exact IH.
    + exists 0. simpl. destruct c as [[] [] [] [] [] [] [] []]; done.
  - apply strip_colons_no_colon.
  - pose proof (strip_colons_no_colon s) as Hs.
    destruct (strip_colons s) as [|c t]; [done|].
    simpl. destruct c as [[] [] [] [] [] [] [] []]; done.
Qed.

(** ** The second project *)

Section extra_demo.
Local Existing Instance extra_host.

Let fetch_ast : node :=
  Other [Other [Other [Other [Identifier "fetch"; Identifier "url"]]]].
Let FETCH_ast : node :=
  Other [Other [Other [Other [Identifier "FETCH"; Identifier "Url"]]]].
Let item : raw_feature := record_of (Some "View  Transitions API") VUndefined (VBool true).
Let normalized_item : Feature := {|
  id := Some "view-transitions-api";
  name := Some "View  Transitions API";
  baseline := VBool true;
  description := VString "";
|}.

Example normalize_item :
  normalizeFeatures (RawArray [item]) = [normalized_item].
Proof. reflexivity. Qed.

Lemma script_detection_witness :
  parse "fetch(url)" = Ok fetch_ast
  ∧ ∃ detected,
      detectFeaturesInJS "fetch(url)" demo_features = Ok detected
      ∧ NoDup detected
      ∧ (∀ f, f ∈ detected ↔
           ∃ x, x ∈ identifiers fetch_ast
                ∧ JSMap.get (featureMap demo_features) (Some (toLowerCase x)) = Some f)
      ∧ (∀ f, f ∈ detected →
           f ∈ demo_features
           ∧ ∃ x, x ∈ identifiers fetch_ast
                  ∧ (toLowerCase <$> name f) = Some (toLowerCase x))
      ∧ (∀ x f, x ∈ identifiers fetch_ast → f ∈ demo_features →
           (toLowerCase <$> name f) = Some (toLowerCase x) →
           ∃ f', f' ∈ detected ∧ (toLowerCase <$> name f') = (toLowerCase <$> name f)).
Proof.
  split; [reflexivity|].
  exact (script_detection_by_identifier "fetch(url)" demo_features fetch_ast eq_refl).
Defined.

Lemma script_detection_ignores_case_witness :
  parse "fetch(url)" = Ok fetch_ast
  ∧ parse "FETCH(Url)" = Ok FETCH_ast
  ∧ toLowerCase <$> identifiers fetch_ast = toLowerCase <$> identifiers FETCH_ast
  ∧ detectFeaturesInJS "fetch(url)" demo_features
    = detectFeaturesInJS "FETCH(Url)" demo_features.
Proof.
  split; [reflexivity|]. split; [reflexivity|]. split; [reflexivity|].
  exact (script_detection_ignores_case "fetch(url)" "FETCH(Url)" demo_features
           fetch_ast FETCH_ast eq_refl eq_refl eq_refl).
Defined.

Lemma selector_failure_witness :
  postcss_parse "a:has(b) {} a::: {}"
  = Ok ([{| selector := "a:has(b)" |}] ++ {| selector := "a:::" |} :: [])
  ∧ Forall2 (fun rule ps => processSync (selector rule) = Ok ps)
      [{| selector := "a:has(b)" |}] [[{| pseudo_value := ":has" |}]]
  ∧ processSync (selector {| selector := "a:::" |}) = Throw "SelectorSyntaxError"
  ∧ detectFeaturesInCSS "a:has(b) {} a::: {}" demo_features
    = Throw "SelectorSyntaxError".
Proof.
  assert (Forall2 (fun rule ps => processSync (selector rule) = Ok ps)
            [{| selector := "a:has(b)" |}] [[{| pseudo_value := ":has" |}]]) as Hall
    by (repeat constructor).
  split; [reflexivity|]. split; [exact Hall|]. split; [reflexivity|].
  exact (selector_failure_propagates "a:has(b) {} a::: {}" demo_features
           [{| selector := "a:has(b)" |}] [] {| selector := "a:::" |}
           [[{| pseudo_value := ":has" |}]] "SelectorSyntaxError" eq_refl Hall eq_refl).
Defined.

Lemma detected_from_features_witness :
  (detectFeaturesInJS "fetch(url)" demo_features = Ok [feature_of "Foo" "fetch" (VBool true)]
   ∨ detectFeaturesInCSS "fetch(url)" demo_features
     = Ok [feature_of "Foo" "fetch" (VBool true)])
  ∧ NoDup [feature_of "Foo" "fetch" (VBool true)]
  ∧ ∀ f, f ∈ [feature_of "Foo" "fetch" (VBool true)] → f ∈ demo_features.
Proof.
  assert (detectFeaturesInJS "fetch(url)" demo_features
          = Ok [feature_of "Foo" "fetch" (VBool true)]
          ∨ detectFeaturesInCSS "fetch(url)" demo_features
            = Ok [feature_of "Foo" "fetch" (VBool true)]) as Hd
    by (left; reflexivity).
  split; [exact Hd|].
  exact (detected_from_features "fetch(url)" demo_features
           [feature_of "Foo" "fetch" (VBool true)] Hd).
Defined.

Let twice : list (string * list Feature) :=
  [("a.js", [feature_of "x" "First" (VBool true)]);
   ("b.js", [feature_of "x" "Second" (VBool false)]);
   ("a.js", [feature_of "x" "Second" (VBool false)])].
Let first_entry : entry :=
  {| feature := feature_of "x" "First" (VBool true); files := ["a.js"; "b.js"] |}.

Lemma entry_keeps_first_feature_witness :
  JSMap.get (aggregate twice) (Some "x") = Some first_entry
  ∧ (∃ l1 file l2, hits twice = l1 ++ (file, feature first_entry) :: l2
                   ∧ id (feature first_entry) = Some "x"
                   ∧ ∀ hit, hit ∈ l1 → id hit.2 ≠ Some "x")
  ∧ files first_entry
    = first_seen (fst <$> filter (fun hit => id hit.2 = Some "x") (hits twice)).
Proof.
  split; [reflexivity|].
  exact (entry_keeps_first_feature twice (Some "x") first_entry eq_refl).
Defined.

Lemma skipped_files_witness :
  ((is_script "notes.md" = false ∧ endsWith "notes.md" ".css" = false)
   ∨ (is_script "notes.md" = true
      ∧ ∃ content e, readFile (join "/w" "notes.md") = Ok content
                     ∧ parse content = Throw e))
  ∧ scan_step "/w" demo_features JSMap.empty "notes.md" = Ok JSMap.empty.
Proof.
  assert ((is_script "notes.md" = false ∧ endsWith "notes.md" ".css" = false)
          ∨ (is_script "notes.md" = true
             ∧ ∃ content e, readFile (join "/w" "notes.md") = Ok content
                            ∧ parse content = Throw e)) as Hcase
    by (left; split; reflexivity).
  split; [exact Hcase|].
  exact (skipped_files_leave_report "/w" demo_features JSMap.empty "notes.md" Hcase).
Defined.

Example run_on_null_json :
  @loadBaselineJson null_host "/w" = Ok DocNull
  ∧ @run null_host default_patterns "/w" false [] = Throw "TypeError"
  ∧ @cli null_host (fun _ => "false") "/w" = 2%Z.
Proof. repeat split; reflexivity. Qed.

Example cli_exits :
  @cli demo_host
    (fun k => if String.eqb k "fail-on-limited" then "true" else "has, Foo") "/w" = 1%Z
  ∧ @cli demo_host
      (fun k => if String.eqb k "fail-on-limited" then "false" else "has, Foo") "/w" = 0%Z.
Proof. split; reflexivity. Qed.
End extra_demo.
